(** * French-system loan schedules and the installment-count search

    A shallow embedding of [finance_optim.py]: the schedule generator
    [generar_cuadro_marcha] and the bounded search [optimizar_prestamo].

    Numbers.  The program computes on floating-point numbers.  Here every
    finite value is an exact rational ([Q]), and the IEEE special values
    that NumPy produces on a division by zero (infinities, not-a-number)
    are kept as separate constructors, so that the degenerate paths of the
    program are traced as they run.  Rounding is not modelled.

    Effects.  Python exceptions are the [Lanza] outcome of the [resultado]
    monad; the two loops are folds over [range]. *)

From Stdlib Require Import ZArith QArith Qpower Qfield Lqa List Sorted Lia Bool.
Import ListNotations.

#[local] Set Warnings "-notation-for-abbreviation".

Local Open Scope Z_scope.

(** ** Python's [range] *)

Definition range (lo hi : Z) : list Z :=
  map (fun i => lo + Z.of_nat i) (seq 0 (Z.to_nat (hi - lo))).

(** ** Extended numbers *)

Module XNum.

Local Open Scope Q_scope.

Inductive xnum : Type :=
  | Fin (q : Q)
  | PInf
  | NInf
  | NaN.

Definition Qlt_bool (a b : Q) : bool := negb (Qle_bool b a).

Definition xopp (x : xnum) : xnum :=
  match x with
  | Fin a => Fin (- a)
  | PInf => NInf
  | NInf => PInf
  | NaN => NaN
  end.

Definition xadd (x y : xnum) : xnum :=
  match x, y with
  | NaN, _ | _, NaN => NaN
  | Fin a, Fin b => Fin (a + b)
  | PInf, NInf | NInf, PInf => NaN
  | PInf, _ | _, PInf => PInf
  | NInf, _ | _, NInf => NInf
  end.

Definition xsub (x y : xnum) : xnum :=
  match x, y with
  | NaN, _ | _, NaN => NaN
  | Fin a, Fin b => Fin (a - b)
  | PInf, PInf | NInf, NInf => NaN
  | PInf, _ | _, NInf => PInf
  | NInf, _ | _, PInf => NInf
  end.

(** An infinity scaled by a finite factor: the sign of the factor decides,
    and a zero factor gives not-a-number. *)
Definition escala (pos : bool) (b : Q) : xnum :=
  match b ?= 0 with
  | Gt => if pos then PInf else NInf
  | Lt => if pos then NInf else PInf
  | Eq => NaN
  end.

Definition xmul (x y : xnum) : xnum :=
  match x, y with
  | NaN, _ | _, NaN => NaN
  | Fin a, Fin b => Fin (a * b)
  | PInf, Fin b | Fin b, PInf => escala true b
  | NInf, Fin b | Fin b, NInf => escala false b
  | PInf, PInf | NInf, NInf => PInf
  | PInf, NInf | NInf, PInf => NInf
  end.

(** NumPy's true division: a zero divisor raises nothing, the quotient is
    an infinity (of the sign of the dividend) or not-a-number. *)
Definition xdiv (x y : xnum) : xnum :=
  match x, y with
  | NaN, _ | _, NaN => NaN
  | Fin a, Fin b =>
      if Qeq_bool b 0 then
        match a ?= 0 with
        | Gt => PInf
        | Lt => NInf
        | Eq => NaN
        end
      else Fin (a / b)
  | Fin _, (PInf | NInf) => Fin 0
  | PInf, Fin b => if Qlt_bool b 0 then NInf else PInf
  | NInf, Fin b => if Qlt_bool b 0 then PInf else NInf
  | (PInf | NInf), (PInf | NInf) => NaN
  end.

(** [b ** n] for a finite base and an integer exponent. *)
Definition qpow (b : Q) (n : Z) : xnum :=
  if (0 <=? n)%Z then Fin (b ^ n) else xdiv (Fin 1) (Fin (b ^ (- n))).

(** Comparisons; every comparison with not-a-number is false. *)
Definition xle_bool (x y : xnum) : bool :=
  match x, y with
  | NaN, _ | _, NaN => false
  | Fin a, Fin b => Qle_bool a b
  | NInf, _ | _, PInf => true
  | _, _ => false
  end.

Definition xlt_bool (x y : xnum) : bool :=
  match x, y with
  | NaN, _ | _, NaN => false
  | Fin a, Fin b => Qlt_bool a b
  | PInf, _ | _, NInf => false
  | _, _ => true
  end.

Definition es_nan (x : xnum) : bool :=
  match x with NaN => true | _ => false end.

(** Equality of extended numbers up to the equality of rationals;
    not-a-number is equal to nothing. *)
Definition xeq (x y : xnum) : Prop :=
  match x, y with
  | Fin a, Fin b => a == b
  | PInf, PInf | NInf, NInf => True
  | _, _ => False
  end.

(** The plain sum of a list, left to right from zero. *)
Definition xsum (xs : list xnum) : xnum := fold_left xadd xs (Fin 0).

End XNum.

Export XNum.

Declare Scope xnum_scope.
Delimit Scope xnum_scope with X.
Infix "=x=" := xeq (at level 70, no associativity) : xnum_scope.

(** ** Exceptions *)

Inductive columna : Type :=
  | ColNCuota
  | ColSaldoInicial
  | ColCuotaPura
  | ColInteres
  | ColAmortizacion
  | ColGastosAdmin
  | ColIVA
  | ColCuotaTotal
  | ColSaldoFinal.

Inductive excepcion : Type :=
  | KeyError (c : columna)
  | ZeroDivisionError.

Inductive resultado (A : Type) : Type :=
  | Retorna (a : A)
  | Lanza (e : excepcion).

Arguments Retorna {A} a.
Arguments Lanza {A} e.

Definition ligar {A B : Type} (c : resultado A) (k : A -> resultado B)
  : resultado B :=
  match c with
  | Retorna a => k a
  | Lanza e => Lanza e
  end.

Notation "x <- c ;; k" := (ligar c (fun x => k))
  (at level 61, c at next level, right associativity).

(** A [for] loop whose body may raise. *)
Fixpoint para_cada {S A : Type} (body : S -> A -> resultado S)
  (xs : list A) (s : S) : resultado S :=
  match xs with
  | [] => Retorna s
  | x :: r => s' <- body s x ;; para_cada body r s'
  end.

(** Python's [/] on plain numbers raises on a zero divisor. *)
Definition py_truediv (a b : Q) : resultado Q :=
  if Qeq_bool b 0 then Lanza ZeroDivisionError else Retorna (a / b)%Q.

(** ** numpy_financial *)

Module Npf.

Local Open Scope Q_scope.

(** [npf.pmt(rate, nper, pv)] with the defaults [fv = 0] and
    [when = 'end'], as the library computes it:
    [temp = (1 + rate) ** nper], [fact = nper] when the rate is zero and
    [(temp - 1) / rate] otherwise, and the payment is [-(pv * temp) / fact].
    The divisions are NumPy's. *)
Definition pmt_temp (rate : Q) (nper : Z) : xnum := qpow (1 + rate) nper.

Definition pmt_fact (rate : Q) (nper : Z) : xnum :=
  if Qeq_bool rate 0 then Fin (inject_Z nper)
  else xdiv (xsub (pmt_temp rate nper) (Fin 1)) (Fin rate).

Definition pmt (rate : Q) (nper : Z) (pv : Q) : xnum :=
  xdiv (xopp (xmul (Fin pv) (pmt_temp rate nper))) (pmt_fact rate nper).

(** What [npf.irr] hands back, as its caller tells the cases apart: a
    finite periodic rate, not-a-number when the series has no rate, the
    value [None], or a raised [ValueError]. *)
Inductive irr_resultado : Type :=
  | IrrTasa (r : Q)
  | IrrNaN
  | IrrNone
  | IrrValueError.

End Npf.

Export Npf.

(** ** pandas *)

Record fila : Type := mkFila {
  n_cuota : Z;
  saldo_inicial : xnum;
  cuota_pura : xnum;
  interes : xnum;
  amortizacion : xnum;
  gastos_admin : xnum;
  iva_fila : xnum;
  cuota_total : xnum;
  saldo_final : xnum
}.

Definition DataFrame : Type := list fila.

Definition celda (c : columna) (f : fila) : xnum :=
  match c with
  | ColNCuota => Fin (inject_Z (n_cuota f))
  | ColSaldoInicial => saldo_inicial f
  | ColCuotaPura => cuota_pura f
  | ColInteres => interes f
  | ColAmortizacion => amortizacion f
  | ColGastosAdmin => gastos_admin f
  | ColIVA => iva_fila f
  | ColCuotaTotal => cuota_total f
  | ColSaldoFinal => saldo_final f
  end.

(** [df[c]]: a frame built from an empty list of records has no columns,
    and the lookup raises. *)
Definition df_columna (df : DataFrame) (c : columna) : resultado (list xnum) :=
  match df with
  | [] => Lanza (KeyError c)
  | _ :: _ => Retorna (map (celda c) df)
  end.

(** [Series.sum()] and [Series.mean()] skip not-a-number entries. *)
Definition sin_nan (xs : list xnum) : list xnum :=
  filter (fun x => negb (es_nan x)) xs.

Definition pd_sum (xs : list xnum) : xnum := xsum (sin_nan xs).

Definition pd_mean (xs : list xnum) : xnum :=
  match sin_nan xs with
  | [] => NaN
  | vs => xdiv (xsum vs) (Fin (inject_Z (Z.of_nat (length vs))))
  end.

(** ** The schedule generator *)

Record metricas : Type := mkMetricas {
  m_n_cuotas : Z;
  cuota_total_promedio : xnum;
  costo_financiero_total_pct : xnum
}.

(** The variables of the loop of [generar_cuadro_marcha]. *)
Record estado : Type := mkEstado {
  saldo_pendiente : xnum;
  cuadro_data : list fila;
  flujo_caja_cft : list xnum
}.

Section Generador.

Local Open Scope Q_scope.

(** [npf.irr], a numerical root finder of the library. *)
Variable irr : list xnum -> irr_resultado.

Definition calcular_cuota_pura (monto_prestamo : Q) (n_cuotas : Z)
  (tasa_mensual : Q) : resultado xnum :=
  if Qlt_bool 0 tasa_mensual then
    Retorna (pmt tasa_mensual n_cuotas (- monto_prestamo))
  else if (n_cuotas >? 0)%Z then
    c <- py_truediv monto_prestamo (inject_Z n_cuotas) ;; Retorna (Fin c)
  else Retorna (Fin 0).

(** One turn of the loop, for the period [periodo]. *)
Definition paso (n_cuotas : Z) (tasa_mensual : Q) (cuota : xnum)
  (gastos_admin_fijos iva : Q) (st : estado) (periodo : Z) : estado :=
  let interes_mes := xmul (saldo_pendiente st) (Fin tasa_mensual) in
  let amortizacion_capital := xsub cuota interes_mes in
  let amortizacion_capital :=
    if (periodo =? n_cuotas)%Z then saldo_pendiente st
    else amortizacion_capital in
  let saldo_fin := xsub (saldo_pendiente st) amortizacion_capital in
  let iva_sobre_intereses := xmul interes_mes (Fin iva) in
  let iva_sobre_gastos := xmul (Fin gastos_admin_fijos) (Fin iva) in
  let total_gastos_impuestos :=
    xadd (xadd (Fin gastos_admin_fijos) iva_sobre_intereses)
      iva_sobre_gastos in
  let cuota_total_a_pagar := xadd cuota total_gastos_impuestos in
  {| saldo_pendiente := saldo_fin;
     cuadro_data := cuadro_data st ++
       [ {| n_cuota := periodo;
            saldo_inicial := saldo_pendiente st;
            cuota_pura := cuota;
            interes := interes_mes;
            amortizacion := amortizacion_capital;
            gastos_admin := Fin gastos_admin_fijos;
            iva_fila := xadd iva_sobre_intereses iva_sobre_gastos;
            cuota_total := cuota_total_a_pagar;
            saldo_final := saldo_fin |} ];
     flujo_caja_cft := flujo_caja_cft st ++ [cuota_total_a_pagar] |}.

Definition estado_inicial (monto_prestamo : Q) : estado :=
  {| saldo_pendiente := Fin monto_prestamo;
     cuadro_data := [];
     flujo_caja_cft := [Fin (- monto_prestamo)] |}.

(** The state after the whole loop. *)
Definition recorrer (monto_prestamo : Q) (n_cuotas : Z) (tasa_mensual : Q)
  (cuota : xnum) (gastos_admin_fijos iva : Q) : estado :=
  fold_left (paso n_cuotas tasa_mensual cuota gastos_admin_fijos iva)
    (range 1 (n_cuotas + 1)) (estado_inicial monto_prestamo).

(** The [try] block: the annual rate from the monthly one, zero when the
    root finder gives no rate above -1 or raises [ValueError]. *)
Definition calcular_cft_anual (flujo : list xnum) : xnum :=
  match irr flujo with
  | IrrTasa cft_mensual =>
      if Qlt_bool (-1) cft_mensual
      then Fin ((1 + cft_mensual) ^ 12 - 1)
      else Fin 0
  | IrrNaN => Fin 0
  | IrrNone => Fin 0
  | IrrValueError => Fin 0
  end.

Definition generar_cuadro_marcha (monto_prestamo : Q) (n_cuotas : Z)
  (tna gastos_admin_fijos iva_porcentaje : Q)
  : resultado (DataFrame * metricas) :=
  let tasa_mensual := tna / 12 in
  let iva := iva_porcentaje in
  cuota <- calcular_cuota_pura monto_prestamo n_cuotas tasa_mensual ;;
  let st := recorrer monto_prestamo n_cuotas tasa_mensual cuota
              gastos_admin_fijos iva in
  let cuadro_df : DataFrame := cuadro_data st in
  col_interes <- df_columna cuadro_df ColInteres ;;
  let total_intereses := pd_sum col_interes in
  col_total <- df_columna cuadro_df ColCuotaTotal ;;
  let total_pagado := pd_sum col_total in
  let cft_anual := calcular_cft_anual (flujo_caja_cft st) in
  col_total' <- df_columna cuadro_df ColCuotaTotal ;;
  Retorna (cuadro_df,
           {| m_n_cuotas := n_cuotas;
              cuota_total_promedio := pd_mean col_total';
              costo_financiero_total_pct := xmul cft_anual (Fin 100) |}).

(** ** The search *)

Record opcion : Type := mkOpcion {
  o_n_cuotas : Z;
  o_cft : xnum;
  o_cuota_total : xnum
}.

(** [mejor_opcion] starts as a record that holds only an infinite cost. *)
Inductive mejor : Type :=
  | Centinela
  | Elegida (o : opcion).

Definition mejor_cft (m : mejor) : xnum :=
  match m with
  | Centinela => PInf
  | Elegida o => o_cft o
  end.

Record busqueda : Type := mkBusqueda {
  mejor_opcion : mejor;
  resultados_validos : list opcion
}.

Definition busqueda_inicial : busqueda :=
  {| mejor_opcion := Centinela; resultados_validos := [] |}.

Definition evaluar (monto_prestamo tna gastos_admin_fijos iva_porcentaje
  cuota_maxima_pagar : Q) (b : busqueda) (n : Z) : resultado busqueda :=
  r <- generar_cuadro_marcha monto_prestamo n tna gastos_admin_fijos
         iva_porcentaje ;;
  let met := snd r in
  if xle_bool (cuota_total_promedio met) (Fin cuota_maxima_pagar) then
    let opcion_actual :=
      {| o_n_cuotas := n;
         o_cft := costo_financiero_total_pct met;
         o_cuota_total := cuota_total_promedio met |} in
    let validos := resultados_validos b ++ [opcion_actual] in
    if xlt_bool (o_cft opcion_actual) (mejor_cft (mejor_opcion b)) then
      Retorna {| mejor_opcion := Elegida opcion_actual;
                 resultados_validos := validos |}
    else
      Retorna {| mejor_opcion := mejor_opcion b;
                 resultados_validos := validos |}
  else Retorna b.

(** The result is [None] for the pair [(None, None)] of the source. *)
Definition optimizar_prestamo (monto_prestamo tna gastos_admin_fijos
  iva_porcentaje cuota_maxima_pagar : Q) (rango_cuotas : Z * Z)
  : resultado (option (mejor * list opcion)) :=
  b <- para_cada (evaluar monto_prestamo tna gastos_admin_fijos
                    iva_porcentaje cuota_maxima_pagar)
         (range (fst rango_cuotas) (snd rango_cuotas + 1))
         busqueda_inicial ;;
  match resultados_validos b with
  | [] => Retorna None
  | _ :: _ => Retorna (Some (mejor_opcion b, resultados_validos b))
  end.

End Generador.

(** A stand-in for the root finder in the runs below: bisection of the net
    present value on the interval (0, 1), twelve rounds. *)
Module Biseccion.

Local Open Scope Q_scope.

Definition valor (x : xnum) : Q :=
  match x with Fin q => q | _ => 0 end.

Fixpoint npv_desde (d : Q) (k : Q) (flujo : list xnum) : Q :=
  match flujo with
  | [] => 0
  | x :: r => valor x * k + npv_desde d (k * d) r
  end.

(** Net present value at the rate [r]. *)
Definition npv (r : Q) (flujo : list xnum) : Q :=
  npv_desde (/ (1 + r)) 1 flujo.

Fixpoint bisecar (rondas : nat) (lo hi : Q) (flujo : list xnum) : Q :=
  match rondas with
  | O => Qred ((lo + hi) / 2)
  | S k =>
      let mid := Qred ((lo + hi) / 2) in
      if Qle_bool 0 (npv mid flujo) then bisecar k mid hi flujo
      else bisecar k lo mid flujo
  end.

Definition irr (flujo : list xnum) : irr_resultado :=
  if Qle_bool 0 (npv 0 flujo) then
    if Qle_bool 0 (npv 1 flujo) then IrrNaN
    else IrrTasa (bisecar 12 0 1 flujo)
  else IrrNaN.

End Biseccion.

(** * Definitions for the statements *)

(** ** The loop of the generator, row by row *)

Section CuadroDefs.

Local Open Scope Q_scope.

Variables (n_cuotas : Z) (tasa_mensual : Q) (cuota : xnum).
Variables (gastos_admin_fijos iva : Q).

(** The row that one turn of the loop appends. *)
Definition fila_de (saldo : xnum) (periodo : Z) : fila :=
  let interes_mes := xmul saldo (Fin tasa_mensual) in
  let amortizacion_capital :=
    if (periodo =? n_cuotas)%Z then saldo else xsub cuota interes_mes in
  let iva_sobre_intereses := xmul interes_mes (Fin iva) in
  let iva_sobre_gastos := xmul (Fin gastos_admin_fijos) (Fin iva) in
  {| n_cuota := periodo;
     saldo_inicial := saldo;
     cuota_pura := cuota;
     interes := interes_mes;
     amortizacion := amortizacion_capital;
     gastos_admin := Fin gastos_admin_fijos;
     iva_fila := xadd iva_sobre_intereses iva_sobre_gastos;
     cuota_total :=
       xadd cuota
         (xadd (xadd (Fin gastos_admin_fijos) iva_sobre_intereses)
            iva_sobre_gastos);
     saldo_final := xsub saldo amortizacion_capital |}.

Fixpoint filas_de (saldo : xnum) (periodos : list Z) : list fila :=
  match periodos with
  | [] => []
  | p :: r =>
      let f := fila_de saldo p in f :: filas_de (saldo_final f) r
  end.

Fixpoint saldo_tras (saldo : xnum) (periodos : list Z) : xnum :=
  match periodos with
  | [] => saldo
  | p :: r => saldo_tras (saldo_final (fila_de saldo p)) r
  end.

(** What every row satisfies, the last one included. *)
Definition fila_conforme (f : fila) : Prop :=
  cuota_pura f = cuota
  /\ interes f = xmul (saldo_inicial f) (Fin tasa_mensual)
  /\ amortizacion f =
       (if (n_cuota f =? n_cuotas)%Z then saldo_inicial f
        else xsub cuota (interes f))
  /\ gastos_admin f = Fin gastos_admin_fijos
  /\ iva_fila f = xadd (xmul (interes f) (Fin iva))
                    (xmul (Fin gastos_admin_fijos) (Fin iva))
  /\ cuota_total f =
       xadd cuota
         (xadd (xadd (Fin gastos_admin_fijos) (xmul (interes f) (Fin iva)))
            (xmul (Fin gastos_admin_fijos) (Fin iva)))
  /\ saldo_final f = xsub (saldo_inicial f) (amortizacion f).

(** Each row opens on the balance the one before closed on. *)
Definition encadenadas (inicio : xnum) (filas : list fila) : Prop :=
  (forall f, nth_error filas 0 = Some f -> saldo_inicial f = inicio)
  /\ forall i f g,
       nth_error filas i = Some f -> nth_error filas (S i) = Some g ->
       saldo_final f = saldo_inicial g.

End CuadroDefs.

(** The inputs the generator is meant for. *)
Definition entrada_valida (monto_prestamo : Q) (n_cuotas : Z)
  (tna gastos_admin_fijos iva_porcentaje : Q) : Prop :=
  (0 < monto_prestamo)%Q /\ (1 <= n_cuotas)%Z /\ (0 <= tna)%Q
  /\ (0 <= gastos_admin_fijos)%Q /\ (0 <= iva_porcentaje)%Q.

(** The installment on finite values: the annuity payment for a positive
    rate, the principal split evenly otherwise. *)
Definition cuota_exacta (monto_prestamo : Q) (n_cuotas : Z)
  (tasa_mensual : Q) : Q :=
  if Qlt_bool 0 tasa_mensual then
    (- (- monto_prestamo * (1 + tasa_mensual) ^ n_cuotas)
     / (((1 + tasa_mensual) ^ n_cuotas - 1) / tasa_mensual))%Q
  else (monto_prestamo / inject_Z n_cuotas)%Q.

(** The rows of the schedule, unrolled. *)
Definition cuadro_de (monto_prestamo : Q) (n_cuotas : Z)
  (tna gastos_admin_fijos iva : Q) : DataFrame :=
  filas_de n_cuotas (tna / 12)
    (Fin (cuota_exacta monto_prestamo n_cuotas (tna / 12)))
    gastos_admin_fijos iva (Fin monto_prestamo) (range 1 (n_cuotas + 1)).

(** ** The search, candidate by candidate *)

Section CandidatosDefs.

Local Open Scope Q_scope.

Variable irr : list xnum -> irr_resultado.
Variables (monto_prestamo tna gastos_admin_fijos iva_porcentaje : Q).
Variable cuota_maxima_pagar : Q.

(** The candidate that the count [n] contributes, if any. *)
Definition candidato (n : Z) : option opcion :=
  match generar_cuadro_marcha irr monto_prestamo n tna gastos_admin_fijos
          iva_porcentaje with
  | Retorna (_, met) =>
      if xle_bool (cuota_total_promedio met) (Fin cuota_maxima_pagar)
      then Some {| o_n_cuotas := n;
                   o_cft := costo_financiero_total_pct met;
                   o_cuota_total := cuota_total_promedio met |}
      else None
  | Lanza _ => None
  end.

Definition candidatos (periodos : list Z) : list opcion :=
  flat_map (fun n => match candidato n with Some o => [o] | None => [] end)
    periodos.

(** The update of [mejor_opcion] on a new candidate. *)
Definition elegir (m : mejor) (o : opcion) : mejor :=
  if xlt_bool (o_cft o) (mejor_cft m) then Elegida o else m.

(** A candidate of the range [lo..hi]: its count is in the range, the
    generator returns on it, its mean payment is affordable, and it
    records the two figures of the schedule. *)
Definition es_candidato (lo hi : Z) (o : opcion) : Prop :=
  (lo <= o_n_cuotas o <= hi)%Z
  /\ exists df met,
       generar_cuadro_marcha irr monto_prestamo (o_n_cuotas o) tna
         gastos_admin_fijos iva_porcentaje = Retorna (df, met)
       /\ xle_bool (cuota_total_promedio met) (Fin cuota_maxima_pagar) = true
       /\ o_cft o = costo_financiero_total_pct met
       /\ o_cuota_total o = cuota_total_promedio met.

(** What [mejor_opcion] holds once the counts [lo..k-1] are evaluated. *)
Definition mejor_hasta (lo k : Z) (m : mejor) : Prop :=
  match m with
  | Centinela => forall n, (lo <= n < k)%Z -> candidato n = None
  | Elegida o =>
      (lo <= o_n_cuotas o < k)%Z
      /\ candidato (o_n_cuotas o) = Some o
      /\ forall n o', (lo <= n < k)%Z -> candidato n = Some o' ->
           xle_bool (o_cft o) (o_cft o') = true
           /\ ((o_cft o' =x= o_cft o)%X -> (o_n_cuotas o <= n)%Z)
  end.

End CandidatosDefs.

(** Candidates are listed by increasing count. *)
Definition por_cuotas (a b : opcion) : Prop :=
  (o_n_cuotas a < o_n_cuotas b)%Z.

Ltac valida :=
  unfold entrada_valida, Qlt, Qle; simpl; repeat split; lia.


(** ** The balance in closed form *)

(** The balance left once [k] periods are paid, on finite values: the
    annuity balance for a positive rate, equal reductions otherwise. *)
Definition saldo_teorico (monto_prestamo : Q) (n_cuotas : Z)
  (tasa_mensual : Q) (k : Z) : Q :=
  if Qlt_bool 0 tasa_mensual then
    (monto_prestamo
     * ((1 + tasa_mensual) ^ n_cuotas - (1 + tasa_mensual) ^ k)
     / ((1 + tasa_mensual) ^ n_cuotas - 1))%Q
  else (monto_prestamo * inject_Z (n_cuotas - k) / inject_Z n_cuotas)%Q.

(** A row whose figures are finite and whose balances are the closed
    form ones. *)
Definition fila_teorica (monto_prestamo : Q) (n_cuotas : Z)
  (tasa_mensual gastos_admin_fijos iva : Q) (f : fila) : Prop :=
  exists s a s',
    (1 <= n_cuota f <= n_cuotas)%Z
    /\ saldo_inicial f = Fin s
    /\ (s == saldo_teorico monto_prestamo n_cuotas tasa_mensual
               (n_cuota f - 1))%Q
    /\ cuota_pura f = Fin (cuota_exacta monto_prestamo n_cuotas tasa_mensual)
    /\ interes f = Fin (s * tasa_mensual)%Q
    /\ amortizacion f = Fin a
    /\ (a == s - s')%Q
    /\ saldo_final f = Fin s'
    /\ (s' == saldo_teorico monto_prestamo n_cuotas tasa_mensual
                (n_cuota f))%Q
    /\ cuota_total f =
         Fin (cuota_exacta monto_prestamo n_cuotas tasa_mensual
              + (gastos_admin_fijos + s * tasa_mensual * iva
                 + gastos_admin_fijos * iva))%Q.

(** The mean total payment in closed form. *)
Definition promedio_teorico (monto_prestamo : Q) (n_cuotas : Z)
  (tasa_mensual gastos_admin_fijos iva : Q) : Q :=
  ((1 + iva)
   * (cuota_exacta monto_prestamo n_cuotas tasa_mensual + gastos_admin_fijos)
   - iva * monto_prestamo / inject_Z n_cuotas)%Q.

(** ** The form and its button *)

(** What the handler of the button hands to the page: the best plan with
    its schedule and the table of valid plans, or the message that no
    plan was found. *)
Inductive pantalla : Type :=
  | ResultadoOptimo (n_cuotas : Z) (cuota_total_plan cft_plan : xnum)
      (cuadro_optimo : DataFrame) (df_validos : list opcion)
  | SinSolucion (monto_prestamo cuota_maxima_pagar : Q)
      (rango_cuotas : Z * Z).

(** How the handler can fail: an exception of the two calculations, or
    the lookup of ['n_cuotas'] in a plan that holds only its cost. *)
Inductive fallo : Type :=
  | FalloCalculo (e : excepcion)
  | FalloClave.

Section Formulario.

Local Open Scope Q_scope.

Variable irr : list xnum -> irr_resultado.

(** The body of [if st.button(...)]: the two percentages are divided by
    100, the search runs, and a plan that is not [None] is shown with the
    schedule generated again for its count. *)
Definition calcular_y_optimizar (monto_prestamo : Z) (tna_pct : Q)
  (gastos_admin_fijos : Z) (iva_pct : Q) (cuota_maxima_pagar : Z)
  (rango_cuotas : Z * Z) : pantalla + fallo :=
  let tna := tna_pct / 100 in
  let iva_porcentaje := iva_pct / 100 in
  match optimizar_prestamo irr (inject_Z monto_prestamo) tna
          (inject_Z gastos_admin_fijos) iva_porcentaje
          (inject_Z cuota_maxima_pagar) rango_cuotas with
  | Lanza e => inr (FalloCalculo e)
  | Retorna None =>
      inl (SinSolucion (inject_Z monto_prestamo)
             (inject_Z cuota_maxima_pagar) rango_cuotas)
  | Retorna (Some (Centinela, _)) => inr FalloClave
  | Retorna (Some (Elegida mejor_plan, df_validos)) =>
      match generar_cuadro_marcha irr (inject_Z monto_prestamo)
              (o_n_cuotas mejor_plan) tna (inject_Z gastos_admin_fijos)
              iva_porcentaje with
      | Lanza e => inr (FalloCalculo e)
      | Retorna (cuadro_optimo, _) =>
          inl (ResultadoOptimo (o_n_cuotas mejor_plan)
                 (o_cuota_total mejor_plan) (o_cft mejor_plan)
                 cuadro_optimo df_validos)
      end
  end.

End Formulario.

(** The values the widgets of the sidebar let through. *)
Definition entrada_formulario (monto_prestamo : Z) (tna_pct : Q)
  (gastos_admin_fijos : Z) (iva_pct : Q) (cuota_maxima_pagar : Z)
  (rango_cuotas : Z * Z) : Prop :=
  (1000 <= monto_prestamo <= 500000000)%Z
  /\ (0 <= tna_pct <= 200)%Q
  /\ (0 <= gastos_admin_fijos)%Z
  /\ (0 <= iva_pct <= 50)%Q
  /\ (1000 <= cuota_maxima_pagar)%Z
  /\ (1 <= fst rango_cuotas)%Z
  /\ (fst rango_cuotas <= snd rango_cuotas)%Z
  /\ (snd rango_cuotas <= 120)%Z.

(** Whether the closed form of the mean payment is within the budget. *)
Definition asequible_teorico (monto_prestamo tna gastos_admin_fijos
  iva_porcentaje cuota_maxima_pagar : Q) (n : Z) : bool :=
  Qle_bool
    (promedio_teorico monto_prestamo n (tna / 12) gastos_admin_fijos
       iva_porcentaje)
    cuota_maxima_pagar.

(** The list of valid plans of a result of the search. *)
Definition lista_validos (r : option (mejor * list opcion)) : list opcion :=
  match r with
  | None => []
  | Some (_, lst) => lst
  end.

(** ** Searches side by side *)

(** The result of the search from the list of its valid plans. *)
Definition resultado_de (validos : list opcion)
  : option (mejor * list opcion) :=
  match validos with
  | [] => None
  | _ :: _ => Some (fold_left elegir validos Centinela, validos)
  end.

(** Two results put together: the lists one after the other, and the
    cheaper of the two plans, the first one on equal cost. *)
Definition combinar (r1 r2 : option (mejor * list opcion))
  : option (mejor * list opcion) :=
  match r1, r2 with
  | None, _ => r2
  | Some _, None => r1
  | Some (m1, l1), Some (m2, l2) =>
      Some (if xle_bool (mejor_cft m1) (mejor_cft m2) then m1 else m2,
            l1 ++ l2)
  end.

(** A running best whose cost can be compared: a number or the infinite
    cost of the start. *)
Definition costo_ordenado (m : mejor) : Prop :=
  match mejor_cft m with
  | Fin _ | PInf => True
  | NInf | NaN => False
  end.

(** * Properties *)

(** ** [range] *)

Section Range.

Lemma range_vacio (lo hi : Z) : hi <= lo -> range lo hi = [].
Proof.
  intros H. unfold range.
  replace (Z.to_nat (hi - lo)) with O by lia. reflexivity.
Qed.

Lemma range_snoc (lo hi : Z) :
  lo <= hi -> range lo (hi + 1) = range lo hi ++ [hi].
Proof.
  intros H. unfold range.
  replace (Z.to_nat (hi + 1 - lo)) with (Z.to_nat (hi - lo) + 1)%nat by lia.
  rewrite seq_app, map_app. simpl. f_equal. f_equal. lia.
Qed.

Lemma range_cons (lo hi : Z) :
  lo < hi -> range lo hi = lo :: range (lo + 1) hi.
Proof.
  intros H. unfold range.
  replace (Z.to_nat (hi - lo)) with (S (Z.to_nat (hi - (lo + 1)))) by lia.
  simpl. f_equal; [lia|].
  rewrite <- seq_shift, map_map.
  apply map_ext. intros i. lia.
Qed.

Lemma range_In (lo hi x : Z) : In x (range lo hi) <-> lo <= x < hi.
Proof.
  unfold range. rewrite in_map_iff. split.
  - intros [i [<- Hi]]. apply in_seq in Hi. lia.
  - intros H. exists (Z.to_nat (x - lo)). split; [lia|].
    apply in_seq. lia.
Qed.

Lemma range_length (lo hi : Z) : length (range lo hi) = Z.to_nat (hi - lo).
Proof. unfold range. now rewrite length_map, length_seq. Qed.

(** Induction on the upper end of a range. *)
Lemma range_ind (lo : Z) (P : Z -> Prop) :
  P lo -> (forall k, lo <= k -> P k -> P (k + 1)) ->
  forall hi, lo <= hi -> P hi.
Proof.
  intros H0 HS hi Hle.
  replace hi with (lo + Z.of_nat (Z.to_nat (hi - lo))) by lia.
  induction (Z.to_nat (hi - lo)) as [|m IH].
  - now replace (lo + Z.of_nat 0) with lo by lia.
  - replace (lo + Z.of_nat (S m)) with (lo + Z.of_nat m + 1) by lia.
    apply HS; [lia | exact IH].
Qed.

End Range.

(** ** Extended numbers *)

Section XNumFacts.

Local Open Scope Q_scope.

Lemma Qlt_bool_iff (a b : Q) : Qlt_bool a b = true <-> a < b.
Proof.
  unfold Qlt_bool. rewrite negb_true_iff. split.
  - intros H. apply Qnot_le_lt. intros Hle.
    apply Qle_bool_iff in Hle. congruence.
  - intros H. destruct (Qle_bool b a) eqn:E; [|reflexivity].
    apply Qle_bool_iff in E. exfalso. exact (Qlt_not_le _ _ H E).
Qed.

Lemma Qlt_bool_false_iff (a b : Q) : Qlt_bool a b = false <-> b <= a.
Proof.
  unfold Qlt_bool. rewrite negb_false_iff. apply Qle_bool_iff.
Qed.

Lemma Qle_bool_false_iff (a b : Q) : Qle_bool a b = false <-> b < a.
Proof.
  rewrite <- Qlt_bool_iff. unfold Qlt_bool. now rewrite negb_true_iff.
Qed.

Lemma xeq_Fin (a b : Q) : (Fin a =x= Fin b)%X <-> a == b.
Proof. reflexivity. Qed.

End XNumFacts.

(** Turns the boolean comparisons of the context into inequalities. *)
Ltac a_desigualdades :=
  repeat match goal with
    | H : Qlt_bool _ _ = true |- _ => apply Qlt_bool_iff in H
    | H : Qlt_bool _ _ = false |- _ => apply Qlt_bool_false_iff in H
    | H : Qle_bool _ _ = true |- _ => apply Qle_bool_iff in H
    | H : Qle_bool _ _ = false |- _ => apply Qle_bool_false_iff in H
    end.

(** ** The installment *)

Section CuotaPura.

Local Open Scope Q_scope.

Lemma pmt_temp_Fin (rate : Q) (nper : Z) :
  (0 <= nper)%Z -> pmt_temp rate nper = Fin ((1 + rate) ^ nper).
Proof.
  intros H. unfold pmt_temp, qpow.
  destruct (Z.leb_spec 0 nper); [reflexivity | lia].
Qed.

(** For a positive rate and at least one period the divisor of [pmt] is
    not zero, and the payment is the finite annuity payment. *)
Lemma pmt_finito (rate : Q) (nper : Z) (pv : Q) :
  0 < rate -> (1 <= nper)%Z ->
  pmt rate nper pv =
  Fin (- (pv * (1 + rate) ^ nper) / (((1 + rate) ^ nper - 1) / rate)).
Proof.
  intros Hr Hn. unfold pmt, pmt_fact.
  rewrite pmt_temp_Fin by lia.
  assert (Hr0 : ~ rate == 0) by (intros E; rewrite E in Hr; discriminate).
  destruct (Qeq_bool rate 0) eqn:E0.
  { apply Qeq_bool_iff in E0. contradiction. }
  simpl. rewrite E0.
  assert (Hp : 1 < (1 + rate) ^ nper).
  { apply Qpower_1_lt; [|lia].
    rewrite <- (Qplus_0_r 1) at 1. apply Qplus_lt_r. exact Hr. }
  assert (Hd : ~ ((1 + rate) ^ nper - 1) / rate == 0).
  { intros E.
    assert (E' : (1 + rate) ^ nper == 1).
    { setoid_replace ((1 + rate) ^ nper)
        with (((1 + rate) ^ nper - 1) / rate * rate + 1)
        by (field; exact Hr0).
      rewrite E. ring. }
    rewrite E' in Hp. discriminate. }
  simpl.
  destruct (Qeq_bool (((1 + rate) ^ nper - 1) / rate) 0) eqn:E1.
  { apply Qeq_bool_iff in E1. contradiction. }
  reflexivity.
Qed.

(** With no period the divisor of [pmt] is zero. *)
Lemma pmt_fact_cero (rate : Q) :
  ~ rate == 0 -> (pmt_fact rate 0 =x= Fin 0)%X.
Proof.
  intros Hr. unfold pmt_fact.
  destruct (Qeq_bool rate 0) eqn:E0.
  { apply Qeq_bool_iff in E0. contradiction. }
  cbv [pmt_temp qpow xsub xdiv Z.leb Z.compare]. rewrite E0.
  simpl. field. exact Hr.
Qed.

End CuotaPura.

(** ** The loop of the generator, row by row *)

Section Cuadro.

Local Open Scope Q_scope.

Variables (n_cuotas : Z) (tasa_mensual : Q) (cuota : xnum).
Variables (gastos_admin_fijos iva : Q).

Local Notation fila_p :=
  (fila_de n_cuotas tasa_mensual cuota gastos_admin_fijos iva).
Local Notation filas_p :=
  (filas_de n_cuotas tasa_mensual cuota gastos_admin_fijos iva).
Local Notation saldo_p :=
  (saldo_tras n_cuotas tasa_mensual cuota gastos_admin_fijos iva).
Local Notation conforme_p :=
  (fila_conforme n_cuotas tasa_mensual cuota gastos_admin_fijos iva).

Let paso' := paso n_cuotas tasa_mensual cuota gastos_admin_fijos iva.

Lemma paso_fila (st : estado) (p : Z) :
  paso' st p =
  {| saldo_pendiente := saldo_final (fila_p (saldo_pendiente st) p);
     cuadro_data := cuadro_data st ++ [fila_p (saldo_pendiente st) p];
     flujo_caja_cft :=
       flujo_caja_cft st ++ [cuota_total (fila_p (saldo_pendiente st) p)] |}.
Proof. reflexivity. Qed.

Lemma fold_paso (periodos : list Z) (st : estado) :
  fold_left paso' periodos st =
  {| saldo_pendiente := saldo_p (saldo_pendiente st) periodos;
     cuadro_data := cuadro_data st ++ filas_p (saldo_pendiente st) periodos;
     flujo_caja_cft :=
       flujo_caja_cft st
       ++ map cuota_total (filas_p (saldo_pendiente st) periodos) |}.
Proof.
  revert st. induction periodos as [|p r IH]; intros st.
  - simpl. rewrite !app_nil_r. now destruct st.
  - simpl fold_left. rewrite IH, paso_fila. simpl.
    rewrite <- !app_assoc. reflexivity.
Qed.

Lemma filas_de_length (saldo : xnum) (periodos : list Z) :
  length (filas_p saldo periodos) = length periodos.
Proof.
  revert saldo. induction periodos as [|p r IH]; intros saldo; simpl;
    [reflexivity | now rewrite IH].
Qed.

Lemma filas_de_periodos (saldo : xnum) (periodos : list Z) :
  map n_cuota (filas_p saldo periodos) = periodos.
Proof.
  revert saldo. induction periodos as [|p r IH]; intros saldo; simpl;
    [reflexivity | now rewrite IH].
Qed.

Lemma fila_de_conforme (saldo : xnum) (p : Z) : conforme_p (fila_p saldo p).
Proof. unfold fila_conforme. simpl. repeat split. Qed.

Lemma filas_de_conformes (saldo : xnum) (periodos : list Z) :
  Forall conforme_p (filas_p saldo periodos).
Proof.
  revert saldo. induction periodos as [|p r IH]; intros saldo; simpl.
  - constructor.
  - constructor; [apply fila_de_conforme | apply IH].
Qed.

Lemma filas_de_encadenadas (saldo : xnum) (periodos : list Z) :
  encadenadas saldo (filas_p saldo periodos).
Proof.
  revert saldo. induction periodos as [|p r IH]; intros saldo.
  - split; intros; destruct i || idtac; discriminate.
  - specialize (IH (saldo_final (fila_p saldo p))).
    destruct IH as [IH0 IHS]. split.
    + simpl. intros f [= <-]. reflexivity.
    + intros [|i] f g Hf Hg; simpl in Hf, Hg.
      * injection Hf as <-. symmetry. now apply IH0.
      * eapply IHS; eassumption.
Qed.

End Cuadro.

(** ** The loop on finite values *)

Section CuadroFinito.

Local Open Scope Q_scope.

Variables (n_cuotas : Z) (tasa_mensual c gastos_admin_fijos iva : Q).

Let filas := filas_de n_cuotas tasa_mensual (Fin c) gastos_admin_fijos iva.
Let saldo_en := saldo_tras n_cuotas tasa_mensual (Fin c) gastos_admin_fijos iva.
Let fila_en := fila_de n_cuotas tasa_mensual (Fin c) gastos_admin_fijos iva.

Lemma filas_de_app (saldo : xnum) (l1 l2 : list Z) :
  filas saldo (l1 ++ l2) = filas saldo l1 ++ filas (saldo_en saldo l1) l2.
Proof.
  revert saldo. induction l1 as [|p r IH]; intros saldo; simpl.
  - reflexivity.
  - f_equal. apply IH.
Qed.

(** Before the last period every amortization is what the balance loses:
    the amounts added to [a] and the balance left make [a + s]. *)
Lemma amortizado_mas_saldo (l : list Z) :
  ~ In n_cuotas l ->
  forall s a, exists q s',
    fold_left xadd (map amortizacion (filas (Fin s) l)) (Fin a) = Fin q
    /\ saldo_en (Fin s) l = Fin s'
    /\ q + s' == a + s.
Proof.
  induction l as [|p r IH]; intros Hn s a.
  - exists a, s. repeat split; reflexivity.
  - assert (Hp : (p =? n_cuotas)%Z = false).
    { apply Z.eqb_neq. intros ->. apply Hn. now left. }
    assert (Hr : ~ In n_cuotas r) by (intros Hi; apply Hn; now right).
    destruct (IH Hr (s - (c - s * tasa_mensual)) (a + (c - s * tasa_mensual)))
      as (q & s' & Hq & Hs & Heq).
    exists q, s'. unfold filas, saldo_en in *.
    cbn [filas_de saldo_tras fila_de map fold_left amortizacion saldo_final
         xmul xsub xadd].
    rewrite Hp. cbn [xsub xadd]. repeat split; try assumption.
    rewrite Heq. ring.
Qed.

(** The rows of a whole schedule: the last row takes the balance left. *)
Lemma cuadro_completo (monto : Q) :
  (1 <= n_cuotas)%Z ->
  exists previas s',
    filas (Fin monto) (range 1 (n_cuotas + 1))
      = previas ++ [fila_en (Fin s') n_cuotas]
    /\ previas = filas (Fin monto) (range 1 n_cuotas)
    /\ (xsum (map amortizacion (filas (Fin monto) (range 1 (n_cuotas + 1))))
        =x= Fin monto)%X.
Proof.
  intros Hn.
  assert (Hnot : ~ In n_cuotas (range 1 n_cuotas)).
  { rewrite range_In. lia. }
  destruct (amortizado_mas_saldo _ Hnot monto 0) as (q & s' & Hq & Hs & Heq).
  exists (filas (Fin monto) (range 1 n_cuotas)), s'.
  rewrite range_snoc by lia. rewrite filas_de_app, Hs.
  repeat split.
  unfold xsum. rewrite map_app, fold_left_app, Hq.
  unfold filas. cbn [filas_de fila_de map fold_left amortizacion].
  rewrite Z.eqb_refl. cbn [xadd]. rewrite xeq_Fin, Heq. ring.
Qed.

Lemma fila_final_saldada (s : Q) :
  amortizacion (fila_en (Fin s) n_cuotas) = Fin s
  /\ (saldo_final (fila_en (Fin s) n_cuotas) =x= Fin 0)%X.
Proof.
  unfold fila_en. cbn [fila_de amortizacion saldo_final].
  rewrite Z.eqb_refl. cbn [xsub]. split; [reflexivity|].
  rewrite xeq_Fin. ring.
Qed.

End CuadroFinito.

(** ** The generator as a whole *)

Section GeneradorProps.

Local Open Scope Q_scope.

Variable irr : list xnum -> irr_resultado.

Lemma calcular_cuota_pura_exacta (monto : Q) (n : Z) (tasa : Q) :
  (1 <= n)%Z ->
  calcular_cuota_pura monto n tasa = Retorna (Fin (cuota_exacta monto n tasa)).
Proof.
  intros Hn. unfold calcular_cuota_pura, cuota_exacta.
  destruct (Qlt_bool 0 tasa) eqn:Et.
  - apply Qlt_bool_iff in Et. now rewrite pmt_finito.
  - destruct (Z.gtb_spec n 0); [|lia].
    unfold py_truediv.
    destruct (Qeq_bool (inject_Z n) 0) eqn:E0; [|reflexivity].
    apply Qeq_bool_iff in E0. unfold Qeq in E0. simpl in E0. lia.
Qed.

Lemma recorrer_forma (monto : Q) (n : Z) (tasa : Q) (cuota : xnum)
  (gastos iva : Q) :
  recorrer monto n tasa cuota gastos iva =
  let filas := filas_de n tasa cuota gastos iva (Fin monto) (range 1 (n + 1)) in
  {| saldo_pendiente :=
       saldo_tras n tasa cuota gastos iva (Fin monto) (range 1 (n + 1));
     cuadro_data := filas;
     flujo_caja_cft := Fin (- monto) :: map cuota_total filas |}.
Proof. unfold recorrer. rewrite fold_paso. reflexivity. Qed.

Lemma cuadro_de_no_vacio (monto : Q) (n : Z) (tna gastos iva : Q) :
  (1 <= n)%Z -> cuadro_de monto n tna gastos iva <> [].
Proof.
  intros Hn E. apply (f_equal (@length fila)) in E.
  unfold cuadro_de in E. rewrite filas_de_length, range_length in E.
  simpl in E. lia.
Qed.

(** With at least one period the generator returns, and what it returns
    is the unrolled schedule with its two figures. *)
Lemma generar_forma (monto : Q) (n : Z) (tna gastos iva : Q) :
  (1 <= n)%Z ->
  generar_cuadro_marcha irr monto n tna gastos iva =
  let df := cuadro_de monto n tna gastos iva in
  Retorna (df,
           {| m_n_cuotas := n;
              cuota_total_promedio := pd_mean (map cuota_total df);
              costo_financiero_total_pct :=
                xmul (calcular_cft_anual irr
                        (Fin (- monto) :: map cuota_total df))
                     (Fin 100) |}).
Proof.
  intros Hn. unfold generar_cuadro_marcha.
  rewrite calcular_cuota_pura_exacta by exact Hn.
  cbn [ligar]. rewrite recorrer_forma. cbn [cuadro_data flujo_caja_cft].
  fold (cuadro_de monto n tna gastos iva).
  pose proof (cuadro_de_no_vacio monto n tna gastos iva Hn) as Hne.
  destruct (cuadro_de monto n tna gastos iva) as [|f r] eqn:E;
    [contradiction|].
  reflexivity.
Qed.

(** Without periods the table has no column to read. *)
Lemma generar_sin_periodos (monto : Q) (n : Z) (tna gastos iva : Q) :
  (n <= 0)%Z ->
  generar_cuadro_marcha irr monto n tna gastos iva
  = Lanza (KeyError ColInteres).
Proof.
  intros Hn. unfold generar_cuadro_marcha, calcular_cuota_pura.
  destruct (Qlt_bool 0 (tna / 12)).
  - cbn [ligar]. rewrite recorrer_forma, range_vacio by lia. reflexivity.
  - destruct (Z.gtb_spec n 0); [lia|].
    cbn [ligar]. rewrite recorrer_forma, range_vacio by lia. reflexivity.
Qed.

Lemma calcular_cft_anual_finito (flujo : list xnum) :
  exists q, calcular_cft_anual irr flujo = Fin q.
Proof.
  unfold calcular_cft_anual.
  destruct (irr flujo) as [r| | |]; try (now eexists).
  destruct (Qlt_bool (-1) r); now eexists.
Qed.

End GeneradorProps.

Section Saldos.

Local Open Scope Q_scope.

Variables (n_cuotas : Z) (tasa_mensual c gastos_admin_fijos iva : Q).

(** Every row of a schedule opens on a finite balance. *)
Lemma filas_saldo_finito (l : list Z) :
  forall s,
    Forall (fun f => exists q, saldo_inicial f = Fin q)
      (filas_de n_cuotas tasa_mensual (Fin c) gastos_admin_fijos iva
         (Fin s) l).
Proof.
  induction l as [|p r IH]; intros s; cbn [filas_de].
  - constructor.
  - constructor; [now exists s|].
    cbn [fila_de saldo_final xmul].
    destruct (p =? n_cuotas)%Z; cbn [xsub]; apply IH.
Qed.

End Saldos.

(** ** The schedule *)

Section Claims_generador.

Local Open Scope Q_scope.

Variable irr : list xnum -> irr_resultado.

(** C1. On valid inputs the generator returns a schedule whose
    amortization amounts add up to the principal. *)
Theorem amortizaciones_suman_principal
  (monto_prestamo : Q) (n_cuotas : Z) (tna gastos_admin_fijos iva : Q) :
  entrada_valida monto_prestamo n_cuotas tna gastos_admin_fijos iva ->
  exists df met,
    generar_cuadro_marcha irr monto_prestamo n_cuotas tna
      gastos_admin_fijos iva = Retorna (df, met)
    /\ (xsum (map amortizacion df) =x= Fin monto_prestamo)%X.
Proof.
  intros (_ & Hn & _).
  rewrite generar_forma by exact Hn.
  eexists; eexists; split; [reflexivity|].
  unfold cuadro_de.
  destruct (cuadro_completo n_cuotas (tna / 12)
              (cuota_exacta monto_prestamo n_cuotas (tna / 12))
              gastos_admin_fijos iva monto_prestamo Hn)
    as (previas & s' & _ & _ & Hsum).
  exact Hsum.
Qed.

(** C3. On valid inputs the last row of the schedule is the row of the
    period [n_cuotas]; its amortization is its opening balance and its
    closing balance is zero. *)
Theorem saldo_final_cero
  (monto_prestamo : Q) (n_cuotas : Z) (tna gastos_admin_fijos iva : Q) :
  entrada_valida monto_prestamo n_cuotas tna gastos_admin_fijos iva ->
  exists previas f met,
    generar_cuadro_marcha irr monto_prestamo n_cuotas tna
      gastos_admin_fijos iva = Retorna (previas ++ [f], met)
    /\ n_cuota f = n_cuotas
    /\ amortizacion f = saldo_inicial f
    /\ (saldo_final f =x= Fin 0)%X.
Proof.
  intros (_ & Hn & _).
  rewrite generar_forma by exact Hn.
  unfold cuadro_de.
  destruct (cuadro_completo n_cuotas (tna / 12)
              (cuota_exacta monto_prestamo n_cuotas (tna / 12))
              gastos_admin_fijos iva monto_prestamo Hn)
    as (previas & s' & Hfilas & _ & _).
  cbv zeta. rewrite Hfilas.
  eexists; eexists; eexists; split; [reflexivity|].
  split; [reflexivity|].
  destruct (fila_final_saldada n_cuotas (tna / 12)
              (cuota_exacta monto_prestamo n_cuotas (tna / 12))
              gastos_admin_fijos iva s') as [Ha Hs].
  split; [exact Ha | exact Hs].
Qed.

(** C7. With a zero annual rate the installment is the principal divided
    by the number of periods, and every row records it and a zero
    interest. *)
Theorem tasa_cero
  (monto_prestamo : Q) (n_cuotas : Z) (tna gastos_admin_fijos iva : Q) :
  0 < monto_prestamo -> (1 <= n_cuotas)%Z -> tna == 0 ->
  calcular_cuota_pura monto_prestamo n_cuotas (tna / 12)
    = Retorna (Fin (monto_prestamo / inject_Z n_cuotas))
  /\ exists df met,
       generar_cuadro_marcha irr monto_prestamo n_cuotas tna
         gastos_admin_fijos iva = Retorna (df, met)
       /\ df <> []
       /\ forall f, In f df ->
            cuota_pura f = Fin (monto_prestamo / inject_Z n_cuotas)
            /\ (interes f =x= Fin 0)%X.
Proof.
  intros _ Hn Ht.
  assert (Hc : cuota_exacta monto_prestamo n_cuotas (tna / 12)
               = monto_prestamo / inject_Z n_cuotas).
  { unfold cuota_exacta.
    destruct (Qlt_bool 0 (tna / 12)) eqn:E; [|reflexivity].
    apply Qlt_bool_iff in E. rewrite Ht in E. discriminate. }
  split.
  { rewrite calcular_cuota_pura_exacta by exact Hn. now rewrite Hc. }
  rewrite generar_forma by exact Hn.
  eexists; eexists; split; [reflexivity|].
  split; [now apply cuadro_de_no_vacio|].
  intros f Hf. unfold cuadro_de in Hf. rewrite Hc in Hf.
  pose proof (filas_de_conformes n_cuotas (tna / 12)
                (Fin (monto_prestamo / inject_Z n_cuotas))
                gastos_admin_fijos iva (Fin monto_prestamo)
                (range 1 (n_cuotas + 1))) as Hconf.
  pose proof (filas_saldo_finito n_cuotas (tna / 12)
                (monto_prestamo / inject_Z n_cuotas)
                gastos_admin_fijos iva (range 1 (n_cuotas + 1))
                monto_prestamo) as Hfin.
  rewrite Forall_forall in Hconf, Hfin.
  destruct (Hconf f Hf) as (Hcp & Hint & _).
  destruct (Hfin f Hf) as [q Hq].
  split; [exact Hcp|].
  rewrite Hint, Hq. cbn [xmul]. rewrite xeq_Fin, Ht.
  unfold Qdiv. ring.
Qed.

(** C8. On valid inputs the rows are those of the periods 1 to
    [n_cuotas] in order, the first opens on the principal, and each row
    opens on the balance the row before it closed on. *)
Theorem cuadro_encadenado
  (monto_prestamo : Q) (n_cuotas : Z) (tna gastos_admin_fijos iva : Q) :
  entrada_valida monto_prestamo n_cuotas tna gastos_admin_fijos iva ->
  exists f1 resto met,
    generar_cuadro_marcha irr monto_prestamo n_cuotas tna
      gastos_admin_fijos iva = Retorna (f1 :: resto, met)
    /\ map n_cuota (f1 :: resto) = range 1 (n_cuotas + 1)
    /\ length (f1 :: resto) = Z.to_nat n_cuotas
    /\ saldo_inicial f1 = Fin monto_prestamo
    /\ forall i f g,
         nth_error (f1 :: resto) i = Some f ->
         nth_error (f1 :: resto) (S i) = Some g ->
         n_cuota g = (n_cuota f + 1)%Z
         /\ saldo_final f = saldo_inicial g.
Proof.
  intros (_ & Hn & _).
  rewrite generar_forma by exact Hn.
  pose proof (cuadro_de_no_vacio monto_prestamo n_cuotas tna
                gastos_admin_fijos iva Hn) as Hne.
  assert (Hper : map n_cuota
                   (cuadro_de monto_prestamo n_cuotas tna gastos_admin_fijos
                      iva) = range 1 (n_cuotas + 1))
    by apply filas_de_periodos.
  assert (Hlen : length
                   (cuadro_de monto_prestamo n_cuotas tna gastos_admin_fijos
                      iva) = Z.to_nat n_cuotas).
  { unfold cuadro_de. rewrite filas_de_length, range_length. lia. }
  destruct (filas_de_encadenadas n_cuotas (tna / 12)
              (Fin (cuota_exacta monto_prestamo n_cuotas (tna / 12)))
              gastos_admin_fijos iva (Fin monto_prestamo)
              (range 1 (n_cuotas + 1))) as [H0 HS].
  fold (cuadro_de monto_prestamo n_cuotas tna gastos_admin_fijos iva)
    in H0, HS.
  destruct (cuadro_de monto_prestamo n_cuotas tna gastos_admin_fijos iva)
    as [|f1 resto]; [contradiction|].
  exists f1, resto. eexists. split; [reflexivity|].
  split; [exact Hper|]. split; [exact Hlen|].
  split; [now apply H0|].
  intros i f g Hf Hg. split; [|now apply (HS i)].
  assert (Hnf : nth_error (map n_cuota (f1 :: resto)) i = Some (n_cuota f))
    by (rewrite nth_error_map, Hf; reflexivity).
  assert (Hng : nth_error (map n_cuota (f1 :: resto)) (S i)
                = Some (n_cuota g))
    by (rewrite nth_error_map, Hg; reflexivity).
  rewrite Hper in Hnf, Hng. unfold range in Hnf, Hng.
  rewrite nth_error_map in Hnf, Hng.
  destruct (nth_error (seq 0 (Z.to_nat (n_cuotas + 1 - 1))) i) as [a|] eqn:Ea;
    [|discriminate].
  destruct (nth_error (seq 0 (Z.to_nat (n_cuotas + 1 - 1))) (S i))
    as [b|] eqn:Eb; [|discriminate].
  apply nth_error_nth with (d := O) in Ea.
  apply nth_error_nth with (d := O) in Eb.
  assert (Hi : (S i < Z.to_nat (n_cuotas + 1 - 1))%nat).
  { assert (Hlt : (S i < length (f1 :: resto))%nat)
      by (apply nth_error_Some; rewrite Hg; discriminate).
    rewrite Hlen in Hlt. lia. }
  rewrite seq_nth in Ea, Eb by lia.
  cbn [option_map] in Hnf, Hng.
  assert (Hfa : (1 + Z.of_nat a = n_cuota f)%Z) by congruence.
  assert (Hgb : (1 + Z.of_nat b = n_cuota g)%Z) by congruence.
  lia.
Qed.

End Claims_generador.

(** ** The search, candidate by candidate *)

Section Candidatos.

Local Open Scope Q_scope.

Variable irr : list xnum -> irr_resultado.
Variables (monto_prestamo tna gastos_admin_fijos iva_porcentaje : Q).
Variable cuota_maxima_pagar : Q.

Local Notation candidato_ :=
  (candidato irr monto_prestamo tna gastos_admin_fijos iva_porcentaje
     cuota_maxima_pagar).
Local Notation candidatos_ :=
  (candidatos irr monto_prestamo tna gastos_admin_fijos iva_porcentaje
     cuota_maxima_pagar).
Local Notation es_candidato_ :=
  (es_candidato irr monto_prestamo tna gastos_admin_fijos iva_porcentaje
     cuota_maxima_pagar).
Local Notation mejor_hasta_ :=
  (mejor_hasta irr monto_prestamo tna gastos_admin_fijos iva_porcentaje
     cuota_maxima_pagar).

Let evaluar' := evaluar irr monto_prestamo tna gastos_admin_fijos
                  iva_porcentaje cuota_maxima_pagar.

Lemma candidato_Some (n : Z) (o : opcion) :
  candidato_ n = Some o ->
  (1 <= n)%Z /\ o_n_cuotas o = n /\ (exists q, o_cft o = Fin q)
  /\ es_candidato_ n n o.
Proof.
  unfold candidato. intros H.
  destruct (Z_le_gt_dec 1 n) as [Hn|Hn].
  - split; [exact Hn|]. revert H.
    pose proof (generar_forma irr monto_prestamo n tna gastos_admin_fijos
                  iva_porcentaje Hn) as Hg.
    cbv zeta in Hg.
    destruct (generar_cuadro_marcha irr monto_prestamo n tna
                gastos_admin_fijos iva_porcentaje) as [[df met]|e] eqn:Eg;
      [|discriminate].
    destruct (xle_bool (cuota_total_promedio met) (Fin cuota_maxima_pagar))
      eqn:Ele; [|discriminate].
    intros [= <-]. cbn [o_n_cuotas o_cft o_cuota_total].
    split; [reflexivity|]. split.
    + injection Hg as _ ->. cbn [costo_financiero_total_pct].
      destruct (calcular_cft_anual_finito irr
                  (Fin (- monto_prestamo)
                   :: map cuota_total
                        (cuadro_de monto_prestamo n tna gastos_admin_fijos
                           iva_porcentaje))) as [q ->].
      now eexists.
    + split; [cbn [o_n_cuotas]; lia|]. exists df, met.
      cbn [o_n_cuotas o_cft o_cuota_total]. rewrite Eg. now repeat split.
  - rewrite generar_sin_periodos in H by lia. discriminate.
Qed.

Lemma candidato_de_es_candidato (lo hi : Z) (o : opcion) :
  es_candidato_ lo hi o -> candidato_ (o_n_cuotas o) = Some o.
Proof.
  intros (_ & df & met & Hg & Hle & Hc & Ht).
  unfold candidato. rewrite Hg, Hle. f_equal.
  destruct o as [n c t]. cbn in *. now subst.
Qed.

Lemma evaluar_forma (b : busqueda) (n : Z) :
  (1 <= n)%Z ->
  evaluar' b n =
  Retorna match candidato_ n with
          | Some o => {| mejor_opcion := elegir (mejor_opcion b) o;
                         resultados_validos := resultados_validos b ++ [o] |}
          | None => b
          end.
Proof.
  intros Hn. unfold evaluar', evaluar, candidato.
  rewrite generar_forma by exact Hn. cbv zeta. cbn [ligar snd].
  destruct (xle_bool _ _); [|reflexivity].
  unfold elegir. cbn [o_cft].
  destruct (xlt_bool _ _); reflexivity.
Qed.

Lemma para_cada_app {S A : Type} (body : S -> A -> resultado S)
  (l1 l2 : list A) (s : S) :
  para_cada body (l1 ++ l2) s =
  (s' <- para_cada body l1 s ;; para_cada body l2 s').
Proof.
  revert s. induction l1 as [|x r IH]; intros s; simpl.
  - reflexivity.
  - destruct (body s x); simpl; [apply IH | reflexivity].
Qed.

Lemma candidatos_app (l1 l2 : list Z) :
  candidatos_ (l1 ++ l2) = candidatos_ l1 ++ candidatos_ l2.
Proof. unfold candidatos. apply flat_map_app. Qed.

Lemma candidatos_In (l : list Z) (o : opcion) :
  In o (candidatos_ l) <-> In (o_n_cuotas o) l /\ candidato_ (o_n_cuotas o) = Some o.
Proof.
  unfold candidatos. rewrite in_flat_map. split.
  - intros [n [Hn Ho]].
    destruct (candidato_ n) as [o'|] eqn:E; [|contradiction].
    destruct Ho as [->|[]].
    destruct (candidato_Some n o E) as (_ & Hno & _). subst n. now split.
  - intros [Hn Ho]. exists (o_n_cuotas o). split; [exact Hn|].
    rewrite Ho. now left.
Qed.

Lemma mejor_hasta_paso (lo k : Z) (m : mejor) :
  (lo <= k)%Z -> mejor_hasta_ lo k m ->
  mejor_hasta_ lo (k + 1)
    match candidato_ k with Some o => elegir m o | None => m end.
Proof.
  intros Hk Hm.
  destruct (candidato_ k) as [ok|] eqn:Ek.
  - destruct (candidato_Some k ok Ek) as (_ & Hnk & [qk Hqk] & _).
    unfold elegir. destruct m as [|o]; cbn [mejor_cft mejor_hasta] in *.
    + rewrite Hqk. cbn [xlt_bool mejor_hasta]. rewrite Hnk.
      split; [lia|]. split; [exact Ek|].
      intros n o' Hn Ho'.
      destruct (Z.eq_dec n k) as [->|Hne].
      * rewrite Ek in Ho'. injection Ho' as <-. rewrite Hqk.
        cbn [xle_bool]. split; [apply Qle_bool_iff, Qle_refl | lia].
      * rewrite Hm in Ho' by lia. discriminate.
    + destruct Hm as (Hno & Hco & Hmin).
      destruct (candidato_Some _ o Hco) as (_ & _ & [q Hq] & _).
      rewrite Hqk, Hq. cbn [xlt_bool].
      destruct (Qlt_bool qk q) eqn:Elt; cbn [mejor_hasta].
      * apply Qlt_bool_iff in Elt. rewrite Hnk.
        split; [lia|]. split; [exact Ek|].
        intros n o' Hn Ho'.
        destruct (Z.eq_dec n k) as [->|Hne].
        -- rewrite Ek in Ho'. injection Ho' as <-. rewrite Hqk.
           cbn [xle_bool]. split; [apply Qle_bool_iff, Qle_refl | lia].
        -- assert (Hn' : (lo <= n < k)%Z) by lia.
           destruct (Hmin n o' Hn' Ho') as [Hle _].
           destruct (candidato_Some n o' Ho') as (_ & _ & [q' Hq'] & _).
           rewrite Hq, Hq' in Hle. cbn [xle_bool] in Hle.
           apply Qle_bool_iff in Hle.
           rewrite Hqk, Hq'. cbn [xle_bool xeq]. split.
           ++ apply Qle_bool_iff, Qlt_le_weak.
              eapply Qlt_le_trans; eassumption.
           ++ intros Heq. exfalso. rewrite Heq in Hle.
              exact (Qlt_not_le _ _ Elt Hle).
      * apply Qlt_bool_false_iff in Elt.
        split; [lia|]. split; [exact Hco|].
        intros n o' Hn Ho'.
        destruct (Z.eq_dec n k) as [->|Hne].
        -- rewrite Ek in Ho'. injection Ho' as <-. rewrite Hqk, Hq.
           cbn [xle_bool]. split; [now apply Qle_bool_iff | lia].
        -- apply Hmin; [lia | exact Ho'].
  - destruct m as [|o]; cbn [mejor_hasta] in *.
    + intros n Hn. destruct (Z.eq_dec n k) as [->|Hne];
        [exact Ek | apply Hm; lia].
    + destruct Hm as (Hno & Hco & Hmin).
      split; [lia|]. split; [exact Hco|].
      intros n o' Hn Ho'.
      destruct (Z.eq_dec n k) as [->|Hne]; [congruence|].
      apply Hmin; [lia | exact Ho'].
Qed.

(** The state of the search after the counts [lo..k-1]. *)
Lemma busqueda_hasta (lo : Z) :
  (1 <= lo)%Z ->
  forall k, (lo <= k)%Z ->
  exists b,
    para_cada evaluar' (range lo k) busqueda_inicial = Retorna b
    /\ resultados_validos b = candidatos_ (range lo k)
    /\ mejor_hasta_ lo k (mejor_opcion b).
Proof.
  intros Hlo. apply (range_ind lo).
  - exists busqueda_inicial. rewrite range_vacio by lia.
    repeat split. cbn. intros n Hn. lia.
  - intros k Hk (b & Hb & Hrv & Hm).
    rewrite range_snoc by exact Hk.
    rewrite para_cada_app, Hb. cbn [ligar para_cada].
    rewrite evaluar_forma by lia. cbn [ligar].
    eexists. split; [reflexivity|].
    rewrite candidatos_app.
    pose proof (mejor_hasta_paso lo k (mejor_opcion b) Hk Hm) as Hm'.
    unfold candidatos at 2. cbn [flat_map]. rewrite app_nil_r.
    destruct (candidato_ k) as [ok|]; cbn [resultados_validos mejor_opcion].
    + split; [now rewrite Hrv | exact Hm'].
    + rewrite app_nil_r. split; [exact Hrv | exact Hm'].
Qed.

End Candidatos.

Section Busqueda.

Local Open Scope Q_scope.

Variable irr : list xnum -> irr_resultado.
Variables (monto_prestamo tna gastos_admin_fijos iva_porcentaje : Q).
Variable cuota_maxima_pagar : Q.

Let candidato' := candidato irr monto_prestamo tna gastos_admin_fijos
                    iva_porcentaje cuota_maxima_pagar.
Let candidatos' := candidatos irr monto_prestamo tna gastos_admin_fijos
                     iva_porcentaje cuota_maxima_pagar.
Let es_candidato' := es_candidato irr monto_prestamo tna gastos_admin_fijos
                       iva_porcentaje cuota_maxima_pagar.
Let optimizar' := optimizar_prestamo irr monto_prestamo tna gastos_admin_fijos
                    iva_porcentaje cuota_maxima_pagar.

Lemma range_ordenado (lo hi : Z) : StronglySorted Z.lt (range lo hi).
Proof.
  remember (Z.to_nat (hi - lo)) as m eqn:Em.
  revert lo Em. induction m as [|m IH]; intros lo Em.
  - rewrite range_vacio by lia. constructor.
  - rewrite range_cons by lia. constructor.
    + apply IH. lia.
    + apply Forall_forall. intros x Hx. apply range_In in Hx. lia.
Qed.

Lemma candidatos_ordenados (periodos : list Z) :
  StronglySorted Z.lt periodos ->
  StronglySorted por_cuotas (candidatos' periodos).
Proof.
  induction 1 as [|a l Hs IH Hall].
  - constructor.
  - unfold candidatos', candidatos. cbn [flat_map].
    fold (candidatos irr monto_prestamo tna gastos_admin_fijos
            iva_porcentaje cuota_maxima_pagar l).
    destruct (candidato irr monto_prestamo tna gastos_admin_fijos
                iva_porcentaje cuota_maxima_pagar a) as [o|] eqn:Ea;
      [|exact IH].
    cbn [app]. constructor; [exact IH|].
    apply Forall_forall. intros x Hx.
    apply candidatos_In in Hx. destruct Hx as [Hin _].
    rewrite Forall_forall in Hall. unfold por_cuotas.
    destruct (candidato_Some _ _ _ _ _ _ _ _ Ea) as (_ & -> & _).
    now apply Hall.
Qed.

Lemma es_candidato_candidato (lo hi : Z) (o : opcion) :
  es_candidato' lo hi o <->
  (lo <= o_n_cuotas o <= hi)%Z /\ candidato' (o_n_cuotas o) = Some o.
Proof.
  split.
  - intros H. split; [apply H|].
    eapply candidato_de_es_candidato. exact H.
  - intros [Hr Hc].
    destruct (candidato_Some _ _ _ _ _ _ _ _ Hc) as (_ & _ & _ & _ & Hex).
    split; assumption.
Qed.

(** What the search returns on a range that starts at 1 or above. *)
Lemma optimizar_forma (lo hi : Z) :
  (1 <= lo)%Z -> (lo <= hi + 1)%Z ->
  exists m,
    mejor_hasta irr monto_prestamo tna gastos_admin_fijos iva_porcentaje
      cuota_maxima_pagar lo (hi + 1) m
    /\ optimizar' (lo, hi) =
       Retorna match candidatos' (range lo (hi + 1)) with
               | [] => None
               | _ :: _ => Some (m, candidatos' (range lo (hi + 1)))
               end.
Proof.
  intros Hlo Hhi.
  destruct (busqueda_hasta irr monto_prestamo tna gastos_admin_fijos
              iva_porcentaje cuota_maxima_pagar lo Hlo (hi + 1) Hhi)
    as (b & Hb & Hrv & Hm).
  exists (mejor_opcion b). split; [exact Hm|].
  unfold optimizar', optimizar_prestamo. cbn [fst snd].
  rewrite Hb. cbn [ligar]. rewrite Hrv.
  unfold candidatos'. now destruct (candidatos _ _ _ _ _ _ _).
Qed.

Lemma optimizar_vacio (lo hi : Z) :
  (hi < lo)%Z -> optimizar' (lo, hi) = Retorna None.
Proof.
  intros H. unfold optimizar', optimizar_prestamo. cbn [fst snd].
  rewrite range_vacio by lia. reflexivity.
Qed.

Lemma sin_asequibles_sin_candidatos (lo hi : Z) :
  (forall n, (lo <= n <= hi)%Z -> forall df met,
     generar_cuadro_marcha irr monto_prestamo n tna gastos_admin_fijos
       iva_porcentaje = Retorna (df, met) ->
     xle_bool (cuota_total_promedio met) (Fin cuota_maxima_pagar) = false) ->
  candidatos' (range lo (hi + 1)) = [].
Proof.
  intros H.
  destruct (candidatos' (range lo (hi + 1))) as [|o l] eqn:E; [reflexivity|].
  assert (Hin : In o (candidatos' (range lo (hi + 1))))
    by (rewrite E; now left).
  apply candidatos_In in Hin. destruct Hin as [Hr Hc].
  apply range_In in Hr.
  destruct (candidato_Some _ _ _ _ _ _ _ _ Hc)
    as (_ & _ & _ & _ & df & met & Hg & Hle & _).
  rewrite (H (o_n_cuotas o) ltac:(lia) df met Hg) in Hle. discriminate.
Qed.

Lemma optimizar_sin_asequibles (lo hi : Z) :
  (1 <= lo)%Z ->
  (forall n, (lo <= n <= hi)%Z -> forall df met,
     generar_cuadro_marcha irr monto_prestamo n tna gastos_admin_fijos
       iva_porcentaje = Retorna (df, met) ->
     xle_bool (cuota_total_promedio met) (Fin cuota_maxima_pagar) = false) ->
  optimizar' (lo, hi) = Retorna None.
Proof.
  intros Hlo H.
  destruct (Z_lt_le_dec hi lo) as [Hv|Hle].
  - now apply optimizar_vacio.
  - destruct (optimizar_forma lo hi Hlo ltac:(lia)) as (m & _ & ->).
    now rewrite sin_asequibles_sin_candidatos.
Qed.

(** With a candidate in the range the search returns the first candidate
    of least cost and the list of all candidates. *)
Lemma optimizar_con_candidatos (lo hi : Z) :
  (1 <= lo)%Z -> (lo <= hi)%Z ->
  candidatos' (range lo (hi + 1)) <> [] ->
  exists o,
    optimizar' (lo, hi)
      = Retorna (Some (Elegida o, candidatos' (range lo (hi + 1))))
    /\ es_candidato' lo hi o
    /\ forall o', es_candidato' lo hi o' ->
         xle_bool (o_cft o) (o_cft o') = true
         /\ ((o_cft o' =x= o_cft o)%X -> (o_n_cuotas o <= o_n_cuotas o')%Z).
Proof.
  intros Hlo Hhi Hne.
  destruct (optimizar_forma lo hi Hlo ltac:(lia)) as (m & Hm & Hopt).
  destruct (candidatos' (range lo (hi + 1))) as [|c l] eqn:E;
    [contradiction|].
  assert (Hin : In c (candidatos' (range lo (hi + 1))))
    by (rewrite E; now left).
  apply candidatos_In in Hin. destruct Hin as [Hr Hc].
  apply range_In in Hr.
  destruct m as [|o]; cbn [mejor_hasta] in Hm.
  - rewrite Hm in Hc by lia. discriminate.
  - destruct Hm as (Hno & Hco & Hmin).
    exists o. split; [exact Hopt|]. split.
    + apply es_candidato_candidato. split; [lia | exact Hco].
    + intros o' Ho'. apply es_candidato_candidato in Ho'.
      destruct Ho' as [Hr' Hc'].
      apply (Hmin (o_n_cuotas o') o'); [lia | exact Hc'].
Qed.

End Busqueda.

(** ** The cost rate and the last payment *)

Section Claims_costo.

Local Open Scope Q_scope.

Variable irr : list xnum -> irr_resultado.

(** C5. On valid inputs the generator returns whatever the root finder
    does on the series made of minus the principal followed by the total
    payment of every period: the reported rate is [(1 + r)^12 - 1] as a
    percentage when the finder gives a rate [r] above -1, and zero when
    it gives a rate of -1 or below, no rate, or raises. *)
Theorem cft_degrada_a_cero
  (monto_prestamo : Q) (n_cuotas : Z) (tna gastos_admin_fijos iva : Q) :
  entrada_valida monto_prestamo n_cuotas tna gastos_admin_fijos iva ->
  exists df met,
    generar_cuadro_marcha irr monto_prestamo n_cuotas tna
      gastos_admin_fijos iva = Retorna (df, met)
    /\ let flujo := Fin (- monto_prestamo) :: map cuota_total df in
       flujo = flujo_caja_cft
                 (recorrer monto_prestamo n_cuotas (tna / 12)
                    (Fin (cuota_exacta monto_prestamo n_cuotas (tna / 12)))
                    gastos_admin_fijos iva)
       /\ length flujo = S (Z.to_nat n_cuotas)
       /\ (forall r, irr flujo = IrrTasa r -> -1 < r ->
             (costo_financiero_total_pct met
              =x= Fin (((1 + r) ^ 12 - 1) * 100))%X)
       /\ (forall r, irr flujo = IrrTasa r -> r <= -1 ->
             (costo_financiero_total_pct met =x= Fin 0)%X)
       /\ (irr flujo = IrrNaN \/ irr flujo = IrrNone
           \/ irr flujo = IrrValueError ->
             (costo_financiero_total_pct met =x= Fin 0)%X).
Proof.
  intros (_ & Hn & _).
  rewrite generar_forma by exact Hn.
  eexists; eexists; split; [reflexivity|].
  cbv zeta. cbn [costo_financiero_total_pct].
  split; [now rewrite recorrer_forma|].
  split.
  { cbn [length]. rewrite length_map. unfold cuadro_de.
    rewrite filas_de_length, range_length. f_equal. lia. }
  unfold calcular_cft_anual.
  split; [|split].
  - intros r -> Hr. apply Qlt_bool_iff in Hr. rewrite Hr.
    cbn [xmul]. rewrite xeq_Fin. reflexivity.
  - intros r -> Hr. apply Qlt_bool_false_iff in Hr. rewrite Hr.
    cbn [xmul]. rewrite xeq_Fin. ring.
  - intros [-> | [-> | ->]]; cbn [xmul]; rewrite xeq_Fin; ring.
Qed.

(** C9. On valid inputs the last row keeps the installment that was
    computed before the loop: its total payment is that installment plus
    the fee and the tax on interest and fee, and this total is the last
    entry of the cash-flow series.  Only its amortization is replaced, by
    its opening balance, and its closing balance follows from it. *)
Theorem cuota_total_sin_ajuste
  (monto_prestamo : Q) (n_cuotas : Z) (tna gastos_admin_fijos iva : Q) :
  entrada_valida monto_prestamo n_cuotas tna gastos_admin_fijos iva ->
  exists cuota previas f met,
    calcular_cuota_pura monto_prestamo n_cuotas (tna / 12) = Retorna cuota
    /\ generar_cuadro_marcha irr monto_prestamo n_cuotas tna
         gastos_admin_fijos iva = Retorna (previas ++ [f], met)
    /\ n_cuota f = n_cuotas
    /\ amortizacion f = saldo_inicial f
    /\ saldo_final f = xsub (saldo_inicial f) (amortizacion f)
    /\ cuota_pura f = cuota
    /\ interes f = xmul (saldo_inicial f) (Fin (tna / 12))
    /\ gastos_admin f = Fin gastos_admin_fijos
    /\ iva_fila f = xadd (xmul (interes f) (Fin iva))
                      (xmul (Fin gastos_admin_fijos) (Fin iva))
    /\ cuota_total f =
         xadd cuota
           (xadd (xadd (Fin gastos_admin_fijos) (xmul (interes f) (Fin iva)))
              (xmul (Fin gastos_admin_fijos) (Fin iva)))
    /\ flujo_caja_cft
         (recorrer monto_prestamo n_cuotas (tna / 12) cuota
            gastos_admin_fijos iva)
       = (Fin (- monto_prestamo) :: map cuota_total previas)
         ++ [cuota_total f]
    /\ costo_financiero_total_pct met =
         xmul (calcular_cft_anual irr
                 ((Fin (- monto_prestamo) :: map cuota_total previas)
                  ++ [cuota_total f]))
           (Fin 100).
Proof.
  intros (_ & Hn & _).
  destruct (cuadro_completo n_cuotas (tna / 12)
              (cuota_exacta monto_prestamo n_cuotas (tna / 12))
              gastos_admin_fijos iva monto_prestamo Hn)
    as (previas & s' & Hfilas & _ & _).
  exists (Fin (cuota_exacta monto_prestamo n_cuotas (tna / 12))), previas.
  eexists; eexists.
  rewrite calcular_cuota_pura_exacta by exact Hn.
  rewrite generar_forma by exact Hn.
  rewrite recorrer_forma. cbv zeta. cbn [flujo_caja_cft].
  unfold cuadro_de. rewrite Hfilas.
  split; [reflexivity|]. split; [reflexivity|].
  cbn [fila_de n_cuota amortizacion saldo_final saldo_inicial cuota_pura
       interes gastos_admin iva_fila cuota_total costo_financiero_total_pct].
  rewrite Z.eqb_refl, map_app.
  repeat split.
Qed.

End Claims_costo.

(** ** The search *)

Section Claims_busqueda.

Local Open Scope Q_scope.

Variable irr : list xnum -> irr_resultado.
Variables (monto_prestamo tna gastos_admin_fijos iva_porcentaje : Q).
Variable cuota_maxima_pagar : Q.

Let generar' := fun n =>
  generar_cuadro_marcha irr monto_prestamo n tna gastos_admin_fijos
    iva_porcentaje.
Let es_candidato' := es_candidato irr monto_prestamo tna gastos_admin_fijos
                       iva_porcentaje cuota_maxima_pagar.
Let optimizar' := optimizar_prestamo irr monto_prestamo tna gastos_admin_fijos
                    iva_porcentaje cuota_maxima_pagar.

(** C2. When the search over a range [lo..hi] with [1 <= lo <= hi]
    returns a plan, the plan is a candidate of the range (its mean payment
    is affordable), no candidate of the range costs less, and every
    candidate of the same cost has at least as many installments. *)
Theorem optimizar_elige_minimo (lo hi : Z) (m : mejor) (lst : list opcion) :
  (1 <= lo)%Z -> (lo <= hi)%Z ->
  optimizar' (lo, hi) = Retorna (Some (m, lst)) ->
  exists o,
    m = Elegida o
    /\ In o lst
    /\ es_candidato' lo hi o
    /\ xle_bool (o_cuota_total o) (Fin cuota_maxima_pagar) = true
    /\ forall o', es_candidato' lo hi o' ->
         xle_bool (o_cft o) (o_cft o') = true
         /\ ((o_cft o' =x= o_cft o)%X -> (o_n_cuotas o <= o_n_cuotas o')%Z).
Proof.
  intros Hlo Hhi Hopt.
  destruct (candidatos irr monto_prestamo tna gastos_admin_fijos
              iva_porcentaje cuota_maxima_pagar (range lo (hi + 1)))
    as [|c l] eqn:E.
  - destruct (optimizar_forma irr monto_prestamo tna gastos_admin_fijos
                iva_porcentaje cuota_maxima_pagar lo hi Hlo ltac:(lia))
      as (m' & _ & Hopt').
    unfold optimizar' in Hopt. rewrite Hopt', E in Hopt. discriminate.
  - destruct (optimizar_con_candidatos irr monto_prestamo tna
                gastos_admin_fijos iva_porcentaje cuota_maxima_pagar
                lo hi Hlo Hhi) as (o & Ho & Hcand & Hmin).
    { rewrite E. discriminate. }
    unfold optimizar' in Hopt. rewrite Ho in Hopt.
    injection Hopt as <- <-.
    exists o. split; [reflexivity|].
    pose proof Hcand as Hcand'.
    apply es_candidato_candidato in Hcand'. destruct Hcand' as [Hr Hc].
    split.
    { apply candidatos_In. split; [apply range_In; lia | exact Hc]. }
    split; [exact Hcand|]. split; [|exact Hmin].
    destruct Hcand as (_ & df & met & _ & Hle & _ & ->). exact Hle.
Qed.

(** C6. On a range [lo..hi] with [1 <= lo <= hi] the search never raises.
    When no count of the range has an affordable mean payment it returns
    the outcome for no plan; when some count has, it returns a plan
    together with the list that holds exactly the candidates of the range,
    by increasing count. *)
Theorem optimizar_resultado (lo hi : Z) :
  (1 <= lo)%Z -> (lo <= hi)%Z ->
  (exists r, optimizar' (lo, hi) = Retorna r)
  /\ ((forall n, (lo <= n <= hi)%Z -> forall df met,
         generar' n = Retorna (df, met) ->
         xle_bool (cuota_total_promedio met) (Fin cuota_maxima_pagar) = false)
      -> optimizar' (lo, hi) = Retorna None)
  /\ (forall n df met,
        (lo <= n <= hi)%Z -> generar' n = Retorna (df, met) ->
        xle_bool (cuota_total_promedio met) (Fin cuota_maxima_pagar) = true ->
        exists o lst,
          optimizar' (lo, hi) = Retorna (Some (Elegida o, lst))
          /\ In o lst
          /\ (forall o', In o' lst <-> es_candidato' lo hi o')
          /\ StronglySorted por_cuotas lst).
Proof.
  intros Hlo Hhi. split; [|split].
  - destruct (optimizar_forma irr monto_prestamo tna gastos_admin_fijos
                iva_porcentaje cuota_maxima_pagar lo hi Hlo ltac:(lia))
      as (m & _ & Hopt).
    eexists. exact Hopt.
  - intros H. now apply optimizar_sin_asequibles.
  - intros n df met Hn Hg Hle.
    set (c := {| o_n_cuotas := n;
                 o_cft := costo_financiero_total_pct met;
                 o_cuota_total := cuota_total_promedio met |}).
    assert (Hc : es_candidato' lo hi c).
    { split; [exact Hn|]. exists df, met. now repeat split. }
    apply es_candidato_candidato in Hc. destruct Hc as [Hrc Hcc].
    destruct (optimizar_con_candidatos irr monto_prestamo tna
                gastos_admin_fijos iva_porcentaje cuota_maxima_pagar
                lo hi Hlo Hhi) as (o & Ho & Hcand & _).
    { intros E.
      assert (Hin : In c (candidatos irr monto_prestamo tna
                            gastos_admin_fijos iva_porcentaje
                            cuota_maxima_pagar (range lo (hi + 1)))).
      { apply candidatos_In. split; [apply range_In; cbn; lia | exact Hcc]. }
      rewrite E in Hin. contradiction. }
    exists o. eexists. split; [exact Ho|].
    assert (Hiff : forall o',
               In o' (candidatos irr monto_prestamo tna gastos_admin_fijos
                        iva_porcentaje cuota_maxima_pagar
                        (range lo (hi + 1)))
               <-> es_candidato' lo hi o').
    { intros o'. rewrite candidatos_In. unfold es_candidato'.
      rewrite es_candidato_candidato, range_In.
      split; intros [H1 H2]; (split; [lia | exact H2]). }
    split; [now apply Hiff|]. split; [exact Hiff|].
    apply candidatos_ordenados, range_ordenado.
Qed.

(** C10. On an empty range ([hi < lo]) the search returns the outcome for
    no plan, the same value it returns on a range in which no count has
    an affordable mean payment. *)
Theorem optimizar_rango_vacio (lo hi : Z) :
  (hi < lo)%Z ->
  optimizar' (lo, hi) = Retorna None
  /\ forall lo' hi',
       (1 <= lo')%Z ->
       (forall n, (lo' <= n <= hi')%Z -> forall df met,
          generar' n = Retorna (df, met) ->
          xle_bool (cuota_total_promedio met) (Fin cuota_maxima_pagar)
          = false) ->
       optimizar' (lo', hi') = optimizar' (lo, hi).
Proof.
  intros H.
  assert (Hv : optimizar' (lo, hi) = Retorna None)
    by now apply optimizar_vacio.
  split; [exact Hv|].
  intros lo' hi' Hlo' Hnone. rewrite Hv.
  now apply optimizar_sin_asequibles.
Qed.

End Claims_busqueda.

(** ** No period *)

(** C4, as the program runs it: with no period and the annual rate 0.12
    the divisor of the payment formula is zero and the installment is an
    infinity; the loop does not run, the table has no column, and the
    generator raises [KeyError], for this rate and for the rate zero
    alike.  It neither returns an empty schedule nor rejects the
    argument. *)
Theorem generar_cero_cuotas :
  (pmt_fact ((12 # 100) / 12) 0 =x= Fin 0)%X
  /\ calcular_cuota_pura 1000 0 ((12 # 100) / 12) = Retorna PInf
  /\ (forall irr,
        generar_cuadro_marcha irr 1000 0 (12 # 100) 0 0
        = Lanza (KeyError ColInteres))
  /\ (forall irr,
        generar_cuadro_marcha irr 1000 0 0 0 0
        = Lanza (KeyError ColInteres)).
Proof.
  split; [vm_compute; reflexivity|].
  split; [vm_compute; reflexivity|].
  split; intros irr; apply generar_sin_periodos; lia.
Qed.

(** ** Runs *)

Lemma amortizaciones_suman_principal_run :
  entrada_valida 1000 3 (12 # 100) 10 (21 # 100)
  /\ exists df met,
       generar_cuadro_marcha Biseccion.irr 1000 3 (12 # 100) 10 (21 # 100)
       = Retorna (df, met)
       /\ (xsum (map amortizacion df) =x= Fin 1000)%X.
Proof.
  split; [valida|].
  apply (amortizaciones_suman_principal Biseccion.irr 1000 3 (12 # 100) 10
           (21 # 100)).
  valida.
Defined.

Lemma saldo_final_cero_run :
  entrada_valida 1000 3 (12 # 100) 10 (21 # 100)
  /\ exists previas f met,
       generar_cuadro_marcha Biseccion.irr 1000 3 (12 # 100) 10 (21 # 100)
       = Retorna (previas ++ [f], met)
       /\ n_cuota f = 3
       /\ amortizacion f = saldo_inicial f
       /\ (saldo_final f =x= Fin 0)%X.
Proof.
  split; [valida|].
  apply (saldo_final_cero Biseccion.irr 1000 3 (12 # 100) 10 (21 # 100)).
  valida.
Defined.

Lemma tasa_cero_run :
  calcular_cuota_pura 1200 3 (0 / 12) = Retorna (Fin (1200 / inject_Z 3))
  /\ exists df met,
       generar_cuadro_marcha Biseccion.irr 1200 3 0 10 (21 # 100)
       = Retorna (df, met)
       /\ df <> []
       /\ forall f, In f df ->
            cuota_pura f = Fin (1200 / inject_Z 3)
            /\ (interes f =x= Fin 0)%X.
Proof.
  apply (tasa_cero Biseccion.irr 1200 3 0 10 (21 # 100)).
  - reflexivity.
  - lia.
  - reflexivity.
Defined.

Lemma cuadro_encadenado_run :
  entrada_valida 1000 3 (12 # 100) 10 (21 # 100)
  /\ exists f1 resto met,
       generar_cuadro_marcha Biseccion.irr 1000 3 (12 # 100) 10 (21 # 100)
       = Retorna (f1 :: resto, met)
       /\ map n_cuota (f1 :: resto) = range 1 (3 + 1)
       /\ length (f1 :: resto) = Z.to_nat 3
       /\ saldo_inicial f1 = Fin 1000
       /\ forall i f g,
            nth_error (f1 :: resto) i = Some f ->
            nth_error (f1 :: resto) (S i) = Some g ->
            n_cuota g = n_cuota f + 1
            /\ saldo_final f = saldo_inicial g.
Proof.
  split; [valida|].
  apply (cuadro_encadenado Biseccion.irr 1000 3 (12 # 100) 10 (21 # 100)).
  valida.
Defined.

Lemma cft_degrada_a_cero_run :
  entrada_valida 1000 3 (12 # 100) 10 (21 # 100)
  /\ exists df met,
       generar_cuadro_marcha Biseccion.irr 1000 3 (12 # 100) 10 (21 # 100)
       = Retorna (df, met)
       /\ length (Fin (- 1000) :: map cuota_total df) = 4%nat.
Proof.
  split; [valida|].
  destruct (cft_degrada_a_cero Biseccion.irr 1000 3 (12 # 100) 10 (21 # 100))
    as (df & met & Hg & _ & Hlen & _).
  - valida.
  - exists df, met. split; [exact Hg | exact Hlen].
Defined.

Lemma cuota_total_sin_ajuste_run :
  entrada_valida 1000 3 (12 # 100) 10 (21 # 100)
  /\ exists cuota previas f met,
       calcular_cuota_pura 1000 3 ((12 # 100) / 12) = Retorna cuota
       /\ generar_cuadro_marcha Biseccion.irr 1000 3 (12 # 100) 10 (21 # 100)
          = Retorna (previas ++ [f], met)
       /\ cuota_pura f = cuota
       /\ cuota_total f =
            xadd cuota
              (xadd (xadd (Fin 10) (xmul (interes f) (Fin (21 # 100))))
                 (xmul (Fin 10) (Fin (21 # 100)))).
Proof.
  split; [valida|].
  destruct (cuota_total_sin_ajuste Biseccion.irr 1000 3 (12 # 100) 10
              (21 # 100))
    as (cuota & previas & f & met & Hc & Hg & _ & _ & _ & Hcp & _ & _ & _
        & Hct & _).
  - valida.
  - exists cuota, previas, f, met. now repeat split.
Defined.

Lemma optimizar_elige_minimo_run :
  exists m lst,
    optimizar_prestamo Biseccion.irr 1000 (12 # 100) 10 (21 # 100) 600 (1, 3)
    = Retorna (Some (m, lst))
    /\ exists o,
         m = Elegida o
         /\ In o lst
         /\ es_candidato Biseccion.irr 1000 (12 # 100) 10 (21 # 100) 600 1 3 o
         /\ xle_bool (o_cuota_total o) (Fin 600) = true
         /\ forall o',
              es_candidato Biseccion.irr 1000 (12 # 100) 10 (21 # 100) 600
                1 3 o' ->
              xle_bool (o_cft o) (o_cft o') = true
              /\ ((o_cft o' =x= o_cft o)%X -> o_n_cuotas o <= o_n_cuotas o').
Proof.
  eexists; eexists. split.
  - vm_compute. reflexivity.
  - apply (optimizar_elige_minimo Biseccion.irr 1000 (12 # 100) 10
             (21 # 100) 600 1 3).
    + lia.
    + lia.
    + vm_compute. reflexivity.
Defined.

Lemma optimizar_resultado_run :
  exists o lst,
    optimizar_prestamo Biseccion.irr 1000 (12 # 100) 10 (21 # 100) 600 (1, 3)
    = Retorna (Some (Elegida o, lst))
    /\ In o lst
    /\ (forall o',
          In o' lst <->
          es_candidato Biseccion.irr 1000 (12 # 100) 10 (21 # 100) 600
            1 3 o')
    /\ StronglySorted por_cuotas lst.
Proof.
  destruct (optimizar_resultado Biseccion.irr 1000 (12 # 100) 10 (21 # 100)
              600 1 3) as (_ & _ & H); [lia | lia |].
  eapply (H 2); [lia | vm_compute; reflexivity | vm_compute; reflexivity].
Defined.

Lemma optimizar_rango_vacio_run :
  optimizar_prestamo Biseccion.irr 1000 (12 # 100) 10 (21 # 100) 600 (5, 2)
  = Retorna None.
Proof.
  destruct (optimizar_rango_vacio Biseccion.irr 1000 (12 # 100) 10
              (21 # 100) 600 5 2) as [H _].
  - lia.
  - exact H.
Defined.

(** * Further properties of the generator *)

(** ** The closed form of the balance *)

Section Teorico.

Local Open Scope Q_scope.

Variables (monto_prestamo : Q) (n_cuotas : Z) (tasa_mensual : Q).
Hypothesis Hn : (1 <= n_cuotas)%Z.
Hypothesis Ht : 0 <= tasa_mensual.

Local Notation teorico := (saldo_teorico monto_prestamo n_cuotas tasa_mensual).
Local Notation cuota_c := (cuota_exacta monto_prestamo n_cuotas tasa_mensual).

Lemma tasa_no_positiva_es_cero :
  Qlt_bool 0 tasa_mensual = false -> tasa_mensual == 0.
Proof.
  intros E. apply Qlt_bool_false_iff in E. now apply Qle_antisym.
Qed.

Lemma potencia_mayor_que_uno :
  0 < tasa_mensual -> 1 < (1 + tasa_mensual) ^ n_cuotas.
Proof.
  intros H. apply Qpower_1_lt; [|lia].
  rewrite <- (Qplus_0_r 1) at 1. now apply Qplus_lt_r.
Qed.

Lemma uno_mas_tasa_positivo : 0 < 1 + tasa_mensual.
Proof.
  apply Qlt_le_trans with (y := 1); [reflexivity|].
  rewrite <- (Qplus_0_r 1) at 1. now apply Qplus_le_r.
Qed.

Lemma potencia_siguiente (k : Z) :
  (1 + tasa_mensual) ^ k == (1 + tasa_mensual) ^ (k - 1) * (1 + tasa_mensual).
Proof.
  replace k with (k - 1 + 1)%Z at 1 by lia.
  rewrite Qpower_plus.
  - reflexivity.
  - intros E. pose proof uno_mas_tasa_positivo as H.
    rewrite E in H. discriminate.
Qed.

Lemma inject_Z_no_cero : ~ inject_Z n_cuotas == 0.
Proof. unfold Qeq. simpl. lia. Qed.

Lemma teorico_inicio : teorico 0 == monto_prestamo.
Proof.
  unfold saldo_teorico. destruct (Qlt_bool 0 tasa_mensual) eqn:E.
  - apply Qlt_bool_iff in E. pose proof (potencia_mayor_que_uno E) as HT.
    change ((1 + tasa_mensual) ^ 0) with 1. field.
    intros E1. apply Qlt_minus_iff in HT.
    unfold Qminus in E1. rewrite E1 in HT. discriminate.
  - rewrite Z.sub_0_r. field. exact inject_Z_no_cero.
Qed.

Lemma teorico_fin : teorico n_cuotas == 0.
Proof.
  unfold saldo_teorico. destruct (Qlt_bool 0 tasa_mensual) eqn:E.
  - apply Qlt_bool_iff in E. pose proof (potencia_mayor_que_uno E) as HT.
    field.
    intros E1. apply Qlt_minus_iff in HT.
    unfold Qminus in E1. rewrite E1 in HT. discriminate.
  - rewrite Z.sub_diag. change (inject_Z 0) with 0. field.
    exact inject_Z_no_cero.
Qed.

(** One period turns the balance [s] into [s * (1 + t) - c]. *)
Lemma teorico_paso (k : Z) :
  teorico k == teorico (k - 1) * (1 + tasa_mensual) - cuota_c.
Proof.
  unfold saldo_teorico, cuota_exacta.
  destruct (Qlt_bool 0 tasa_mensual) eqn:E.
  - apply Qlt_bool_iff in E. pose proof (potencia_mayor_que_uno E) as HT.
    rewrite (potencia_siguiente k).
    generalize ((1 + tasa_mensual) ^ (k - 1)). intros u.
    revert HT. generalize ((1 + tasa_mensual) ^ n_cuotas). intros T HT.
    assert (HT1 : ~ T - 1 == 0).
    { intros E1. apply Qlt_minus_iff in HT.
      unfold Qminus in E1. rewrite E1 in HT. discriminate. }
    assert (Ht0 : ~ tasa_mensual == 0).
    { intros E0. rewrite E0 in E. discriminate. }
    field. split; assumption.
  - pose proof (tasa_no_positiva_es_cero E) as E0.
    replace (n_cuotas - (k - 1))%Z with (n_cuotas - k + 1)%Z by lia.
    rewrite inject_Z_plus. change (inject_Z 1) with 1. rewrite E0.
    field. exact inject_Z_no_cero.
Qed.

(** The balance before the last period, with its interest, is one
    installment. *)
Lemma teorico_ultima :
  teorico (n_cuotas - 1) * (1 + tasa_mensual) == cuota_c.
Proof.
  pose proof (teorico_paso n_cuotas) as H. rewrite teorico_fin in H.
  setoid_replace cuota_c
    with (teorico (n_cuotas - 1) * (1 + tasa_mensual)
          - (teorico (n_cuotas - 1) * (1 + tasa_mensual) - cuota_c))
    by ring.
  rewrite <- H. ring.
Qed.

End Teorico.

Section FilasTeoricas.

Local Open Scope Q_scope.

Variables (monto_prestamo : Q) (n_cuotas : Z) (tasa_mensual : Q).
Variables (gastos_admin_fijos iva : Q).
Hypothesis Hn : (1 <= n_cuotas)%Z.
Hypothesis Ht : 0 <= tasa_mensual.

Local Notation teorico := (saldo_teorico monto_prestamo n_cuotas tasa_mensual).
Local Notation cuota_c := (cuota_exacta monto_prestamo n_cuotas tasa_mensual).
Local Notation filas_c :=
  (filas_de n_cuotas tasa_mensual (Fin cuota_c) gastos_admin_fijos iva).
Local Notation saldo_c :=
  (saldo_tras n_cuotas tasa_mensual (Fin cuota_c) gastos_admin_fijos iva).
Local Notation teorica :=
  (fila_teorica monto_prestamo n_cuotas tasa_mensual gastos_admin_fijos iva).

(** From any period on, the rows follow the closed form. *)
Lemma filas_teoricas_desde (m : nat) :
  forall k s,
    (1 <= k)%Z -> (k + Z.of_nat m = n_cuotas)%Z ->
    s == teorico (k - 1) ->
    Forall teorica (filas_c (Fin s) (range k (n_cuotas + 1))).
Proof.
  induction m as [|m IH]; intros k s Hk Hkm Hs.
  - assert (k = n_cuotas) by lia. subst k.
    rewrite range_cons by lia. rewrite range_vacio by lia.
    cbn [filas_de]. constructor; [|constructor].
    exists s, s, (s - s).
    cbn [fila_de n_cuota saldo_inicial cuota_pura interes amortizacion
         saldo_final cuota_total xmul xadd].
    rewrite Z.eqb_refl. cbn [xsub].
    repeat split; try reflexivity; try lia; try assumption.
    + ring.
    + rewrite (teorico_fin monto_prestamo n_cuotas tasa_mensual Hn). ring.
  - assert (Hne : (k =? n_cuotas)%Z = false) by (apply Z.eqb_neq; lia).
    rewrite range_cons by lia. cbn [filas_de].
    assert (Hs' : s - (cuota_c - s * tasa_mensual) == teorico k).
    { rewrite (teorico_paso monto_prestamo n_cuotas tasa_mensual Hn Ht k).
      rewrite <- Hs. ring. }
    constructor.
    + exists s, (cuota_c - s * tasa_mensual),
        (s - (cuota_c - s * tasa_mensual)).
      cbn [fila_de n_cuota saldo_inicial cuota_pura interes amortizacion
           saldo_final cuota_total xmul xadd].
      rewrite Hne. cbn [xsub].
      repeat split; try reflexivity; try lia; try assumption.
      ring.
    + cbn [fila_de saldo_final xmul]. rewrite Hne. cbn [xsub].
      apply IH; [lia | lia |].
      replace (k + 1 - 1)%Z with k by lia. exact Hs'.
Qed.

Lemma cuadro_teorico :
  Forall teorica (filas_c (Fin monto_prestamo) (range 1 (n_cuotas + 1))).
Proof.
  apply (filas_teoricas_desde (Z.to_nat (n_cuotas - 1))); [lia | lia |].
  symmetry. apply (teorico_inicio monto_prestamo n_cuotas tasa_mensual Hn).
Qed.

(** The sums of the interest and of the total payment over the periods
    before the last, with the balance they leave. *)
Lemma sumas_previas (m : nat) :
  forall k s a b,
    (1 <= k)%Z -> (k + Z.of_nat m = n_cuotas)%Z ->
    s == teorico (k - 1) ->
    exists qi qt s',
      fold_left xadd (map interes (filas_c (Fin s) (range k n_cuotas)))
        (Fin a) = Fin qi
      /\ fold_left xadd (map cuota_total (filas_c (Fin s) (range k n_cuotas)))
           (Fin b) = Fin qt
      /\ saldo_c (Fin s) (range k n_cuotas) = Fin s'
      /\ s' == teorico (n_cuotas - 1)
      /\ qi == a + (s' - s) + cuota_c * inject_Z (Z.of_nat m)
      /\ qt == b
               + (cuota_c + gastos_admin_fijos + gastos_admin_fijos * iva)
                 * inject_Z (Z.of_nat m)
               + iva * (qi - a).
Proof.
  induction m as [|m IH]; intros k s a b Hk Hkm Hs.
  - assert (k = n_cuotas) by lia. subst k.
    rewrite range_vacio by lia. exists a, b, s.
    cbn [filas_de map fold_left saldo_tras].
    repeat split; try reflexivity; try assumption.
    + change (inject_Z (Z.of_nat 0)) with 0. ring.
    + change (inject_Z (Z.of_nat 0)) with 0. ring.
  - assert (Hne : (k =? n_cuotas)%Z = false) by (apply Z.eqb_neq; lia).
    rewrite range_cons by lia.
    cbn [filas_de saldo_tras map fold_left fila_de interes cuota_total
         saldo_final xmul xadd].
    rewrite Hne. cbn [xsub].
    assert (Hs' : s - (cuota_c - s * tasa_mensual) == teorico (k + 1 - 1)).
    { replace (k + 1 - 1)%Z with k by lia.
      rewrite (teorico_paso monto_prestamo n_cuotas tasa_mensual Hn Ht k).
      rewrite <- Hs. ring. }
    destruct (IH (k + 1)%Z (s - (cuota_c - s * tasa_mensual))
                (a + s * tasa_mensual)
                (b + (cuota_c
                      + (gastos_admin_fijos + s * tasa_mensual * iva
                         + gastos_admin_fijos * iva)))
                ltac:(lia) ltac:(lia) Hs')
      as (qi & qt & s' & Hqi & Hqt & Hsal & Hs'' & Ei & Et).
    exists qi, qt, s'.
    repeat split; try assumption.
    + rewrite Ei, Nat2Z.inj_succ. unfold Z.succ. rewrite inject_Z_plus.
      change (inject_Z 1) with 1. ring.
    + rewrite Et, Ei, Nat2Z.inj_succ. unfold Z.succ. rewrite inject_Z_plus.
      change (inject_Z 1) with 1. ring.
Qed.

End FilasTeoricas.

Section TeoricoOrden.

Local Open Scope Q_scope.

Variables (monto_prestamo : Q) (n_cuotas : Z) (tasa_mensual : Q).
Hypothesis Hn : (1 <= n_cuotas)%Z.
Hypothesis Ht : 0 <= tasa_mensual.
Hypothesis Hm : 0 < monto_prestamo.

Local Notation teorico := (saldo_teorico monto_prestamo n_cuotas tasa_mensual).

(** The closed form decreases strictly with the number of paid periods. *)
Lemma teorico_decrece (k1 k2 : Z) :
  (k1 < k2)%Z -> teorico k2 < teorico k1.
Proof.
  intros Hk. apply Qlt_minus_iff. unfold saldo_teorico.
  destruct (Qlt_bool 0 tasa_mensual) eqn:E.
  - apply Qlt_bool_iff in E.
    pose proof (potencia_mayor_que_uno n_cuotas tasa_mensual Hn E) as HT.
    assert (Hp : (1 + tasa_mensual) ^ k1 < (1 + tasa_mensual) ^ k2).
    { apply Qpower_lt_compat_l; [exact Hk|].
      rewrite <- (Qplus_0_r 1) at 1. now apply Qplus_lt_r. }
    apply Qlt_minus_iff in HT, Hp.
    revert HT Hp.
    generalize ((1 + tasa_mensual) ^ n_cuotas) ((1 + tasa_mensual) ^ k1)
      ((1 + tasa_mensual) ^ k2).
    intros T u1 u2 HT Hp.
    setoid_replace
      (monto_prestamo * (T - u1) / (T - 1)
       + - (monto_prestamo * (T - u2) / (T - 1)))
      with (monto_prestamo * (u2 + - u1) * / (T - 1))
      by (unfold Qdiv; ring).
    apply Qmult_lt_0_compat; [apply Qmult_lt_0_compat; assumption|].
    apply Qinv_lt_0_compat. exact HT.
  - setoid_replace
      (monto_prestamo * inject_Z (n_cuotas - k1) / inject_Z n_cuotas
       + - (monto_prestamo * inject_Z (n_cuotas - k2) / inject_Z n_cuotas))
      with (monto_prestamo * inject_Z (k2 - k1) * / inject_Z n_cuotas).
    + apply Qmult_lt_0_compat; [apply Qmult_lt_0_compat; [exact Hm|]|].
      * change 0 with (inject_Z 0). rewrite <- Zlt_Qlt. lia.
      * apply Qinv_lt_0_compat. change 0 with (inject_Z 0).
        rewrite <- Zlt_Qlt. lia.
    + replace (n_cuotas - k1)%Z with (n_cuotas - k2 + (k2 - k1))%Z by lia.
      rewrite inject_Z_plus. unfold Qdiv. ring.
Qed.

Lemma teorico_positivo (k : Z) : (k < n_cuotas)%Z -> 0 < teorico k.
Proof.
  intros Hk.
  rewrite <- (teorico_fin monto_prestamo n_cuotas tasa_mensual Hn).
  now apply teorico_decrece.
Qed.

End TeoricoOrden.

(** ** The schedule in closed form *)

Section Extras_generador.

Local Open Scope Q_scope.

Variable irr : list xnum -> irr_resultado.

Lemma tasa_mensual_no_negativa (tna : Q) : 0 <= tna -> 0 <= tna / 12.
Proof.
  intros H. unfold Qdiv. apply Qmult_le_0_compat; [exact H | discriminate].
Qed.

(** X1. The generator returns exactly when there is at least one period:
    whatever the other arguments are, it raises [KeyError] on a count of
    zero or below, and returns a table of [n_cuotas] rows otherwise. *)
Theorem generar_retorna_o_lanza
  (monto_prestamo : Q) (n_cuotas : Z) (tna gastos_admin_fijos iva : Q) :
  ((n_cuotas <= 0)%Z ->
     generar_cuadro_marcha irr monto_prestamo n_cuotas tna
       gastos_admin_fijos iva = Lanza (KeyError ColInteres))
  /\ ((1 <= n_cuotas)%Z ->
        exists df met,
          generar_cuadro_marcha irr monto_prestamo n_cuotas tna
            gastos_admin_fijos iva = Retorna (df, met)
          /\ length df = Z.to_nat n_cuotas
          /\ m_n_cuotas met = n_cuotas).
Proof.
  split; intros Hn.
  - now apply generar_sin_periodos.
  - rewrite generar_forma by exact Hn.
    eexists; eexists; split; [reflexivity|]. split; [|reflexivity].
    unfold cuadro_de. rewrite filas_de_length, range_length. lia.
Qed.

(** X2. For a rate of zero or above, the balances of every row are those of
    the closed form: the row of period [p] opens on the balance after
    [p - 1] periods and closes on the balance after [p]. *)
Theorem saldos_en_forma_cerrada
  (monto_prestamo : Q) (n_cuotas : Z) (tna gastos_admin_fijos iva : Q) :
  (1 <= n_cuotas)%Z -> 0 <= tna ->
  exists df met,
    generar_cuadro_marcha irr monto_prestamo n_cuotas tna
      gastos_admin_fijos iva = Retorna (df, met)
    /\ forall f, In f df ->
         exists s s',
           saldo_inicial f = Fin s /\ saldo_final f = Fin s'
           /\ s == saldo_teorico monto_prestamo n_cuotas (tna / 12)
                     (n_cuota f - 1)
           /\ s' == saldo_teorico monto_prestamo n_cuotas (tna / 12)
                      (n_cuota f).
Proof.
  intros Hn Ht. rewrite generar_forma by exact Hn.
  eexists; eexists; split; [reflexivity|].
  intros f Hf.
  pose proof (cuadro_teorico monto_prestamo n_cuotas (tna / 12)
                gastos_admin_fijos iva Hn (tasa_mensual_no_negativa tna Ht))
    as Hall.
  rewrite Forall_forall in Hall.
  destruct (Hall f Hf)
    as (s & a & s' & _ & Hs & Es & _ & _ & _ & _ & Hs' & Es' & _).
  exists s, s'. now repeat split.
Qed.

(** X3. For a rate of zero or above, amortization plus interest is the
    installment in every row, the last one included: on exact values the
    amount forced into the last amortization is the one the general
    formula gives. *)
Theorem amortizacion_mas_interes
  (monto_prestamo : Q) (n_cuotas : Z) (tna gastos_admin_fijos iva : Q) :
  (1 <= n_cuotas)%Z -> 0 <= tna ->
  exists df met,
    generar_cuadro_marcha irr monto_prestamo n_cuotas tna
      gastos_admin_fijos iva = Retorna (df, met)
    /\ forall f, In f df ->
         (xadd (amortizacion f) (interes f) =x= cuota_pura f)%X
         /\ (amortizacion f =x= xsub (cuota_pura f) (interes f))%X.
Proof.
  intros Hn Ht. rewrite generar_forma by exact Hn.
  eexists; eexists; split; [reflexivity|].
  intros f Hf.
  pose proof (tasa_mensual_no_negativa tna Ht) as Ht'.
  pose proof (cuadro_teorico monto_prestamo n_cuotas (tna / 12)
                gastos_admin_fijos iva Hn Ht') as Hall.
  rewrite Forall_forall in Hall.
  destruct (Hall f Hf)
    as (s & a & s' & _ & Hs & Es & Hc & Hi & Ha & Ea & Hs' & Es' & _).
  rewrite Ha, Hi, Hc. cbn [xadd xsub xeq].
  assert (E : a + s * (tna / 12)
              == cuota_exacta monto_prestamo n_cuotas (tna / 12)).
  { rewrite Ea, Es'.
    rewrite (teorico_paso monto_prestamo n_cuotas (tna / 12) Hn Ht'
               (n_cuota f)).
    rewrite <- Es. ring. }
  split; [exact E|]. rewrite <- E. ring.
Qed.

(** X4. For a positive principal and a rate of zero or above, every row
    opens on a positive balance, carries a non-negative interest and a
    positive amortization, and closes on a smaller, non-negative
    balance. *)
Theorem saldos_positivos_y_decrecientes
  (monto_prestamo : Q) (n_cuotas : Z) (tna gastos_admin_fijos iva : Q) :
  0 < monto_prestamo -> (1 <= n_cuotas)%Z -> 0 <= tna ->
  exists df met,
    generar_cuadro_marcha irr monto_prestamo n_cuotas tna
      gastos_admin_fijos iva = Retorna (df, met)
    /\ forall f, In f df ->
         exists s i a s',
           saldo_inicial f = Fin s /\ interes f = Fin i
           /\ amortizacion f = Fin a /\ saldo_final f = Fin s'
           /\ 0 < s /\ 0 <= i /\ 0 < a /\ 0 <= s' /\ s' < s.
Proof.
  intros Hm Hn Ht. rewrite generar_forma by exact Hn.
  eexists; eexists; split; [reflexivity|].
  intros f Hf.
  pose proof (tasa_mensual_no_negativa tna Ht) as Ht'.
  pose proof (cuadro_teorico monto_prestamo n_cuotas (tna / 12)
                gastos_admin_fijos iva Hn Ht') as Hall.
  rewrite Forall_forall in Hall.
  destruct (Hall f Hf)
    as (s & a & s' & Hp & Hs & Es & _ & Hi & Ha & Ea & Hs' & Es' & _).
  exists s, (s * (tna / 12)), a, s'.
  assert (Hpos : 0 < s).
  { rewrite Es. apply teorico_positivo; try assumption. lia. }
  assert (Hlt : s' < s).
  { rewrite Es, Es'. apply teorico_decrece; try assumption. lia. }
  assert (Hge : 0 <= s').
  { rewrite Es'. destruct (Z.eq_dec (n_cuota f) n_cuotas) as [->|Hne].
    - rewrite (teorico_fin monto_prestamo n_cuotas (tna / 12) Hn).
      apply Qle_refl.
    - apply Qlt_le_weak. apply teorico_positivo; try assumption. lia. }
  repeat split; try assumption.
  - apply Qmult_le_0_compat; [now apply Qlt_le_weak | exact Ht'].
  - rewrite Ea. apply Qlt_minus_iff in Hlt. exact Hlt.
Qed.

End Extras_generador.

(** ** Totals and the mean payment *)

Section Totales.

Local Open Scope Q_scope.

Lemma sin_nan_finitos (xs : list xnum) :
  Forall (fun x => es_nan x = false) xs -> sin_nan xs = xs.
Proof.
  induction 1 as [|x r Hx _ IH]; [reflexivity|].
  unfold sin_nan in *. cbn [filter]. rewrite Hx. cbn [negb]. now rewrite IH.
Qed.

Variables (monto_prestamo : Q) (n_cuotas : Z) (tasa_mensual : Q).
Variables (gastos_admin_fijos iva : Q).
Hypothesis Hn : (1 <= n_cuotas)%Z.
Hypothesis Ht : 0 <= tasa_mensual.

Local Notation cuota_c := (cuota_exacta monto_prestamo n_cuotas tasa_mensual).
Local Notation cuadro_c :=
  (filas_de n_cuotas tasa_mensual (Fin cuota_c) gastos_admin_fijos iva
     (Fin monto_prestamo) (range 1 (n_cuotas + 1))).

Lemma columnas_finitas :
  Forall (fun x => es_nan x = false) (map interes cuadro_c)
  /\ Forall (fun x => es_nan x = false) (map cuota_total cuadro_c).
Proof.
  pose proof (cuadro_teorico monto_prestamo n_cuotas tasa_mensual
                gastos_admin_fijos iva Hn Ht) as Hall.
  split; apply Forall_map; eapply Forall_impl; try exact Hall;
    intros f (s & a & s' & _ & _ & _ & _ & Hi & _ & _ & _ & _ & Hct).
  - now rewrite Hi.
  - now rewrite Hct.
Qed.

(** The plain sums of the two columns. *)
Lemma sumas_cuadro :
  exists qi qt,
    xsum (map interes cuadro_c) = Fin qi
    /\ xsum (map cuota_total cuadro_c) = Fin qt
    /\ qi == inject_Z n_cuotas * cuota_c - monto_prestamo
    /\ qt == inject_Z n_cuotas
             * (cuota_c + gastos_admin_fijos + gastos_admin_fijos * iva)
             + iva * qi.
Proof.
  destruct (sumas_previas monto_prestamo n_cuotas tasa_mensual
              gastos_admin_fijos iva Hn Ht (Z.to_nat (n_cuotas - 1))
              1%Z monto_prestamo 0 0 ltac:(lia) ltac:(lia))
    as (qi & qt & s' & Hqi & Hqt & Hsal & Es' & Ei & Et).
  { symmetry.
    apply (teorico_inicio monto_prestamo n_cuotas tasa_mensual Hn). }
  pose proof (teorico_ultima monto_prestamo n_cuotas tasa_mensual Hn Ht)
    as Hult.
  rewrite <- Es' in Hult.
  assert (EN : inject_Z (Z.of_nat (Z.to_nat (n_cuotas - 1)))
               == inject_Z n_cuotas - 1).
  { rewrite Z2Nat.id by lia.
    replace (n_cuotas - 1)%Z with (n_cuotas + -1)%Z by lia.
    rewrite inject_Z_plus. reflexivity. }
  rewrite EN in Ei, Et.
  exists (qi + s' * tasa_mensual),
    (qt + (cuota_c
           + (gastos_admin_fijos + s' * tasa_mensual * iva
              + gastos_admin_fijos * iva))).
  unfold xsum. rewrite range_snoc by lia.
  rewrite filas_de_app, !map_app, !fold_left_app, Hqi, Hqt, Hsal.
  cbn [filas_de fila_de map fold_left interes cuota_total xmul xadd].
  split; [reflexivity|]. split; [reflexivity|].
  assert (E1 : qi + s' * tasa_mensual
               == inject_Z n_cuotas * cuota_c - monto_prestamo).
  { rewrite Ei, <- Hult. ring. }
  split; [exact E1|].
  rewrite Et.
  setoid_replace (qi - 0) with qi by ring.
  ring.
Qed.

End Totales.

Section Extras_totales.

Local Open Scope Q_scope.

Variable irr : list xnum -> irr_resultado.

(** X5. For a rate of zero or above, the interest column adds up to the
    installments paid less the principal. *)
Theorem total_intereses
  (monto_prestamo : Q) (n_cuotas : Z) (tna gastos_admin_fijos iva : Q) :
  (1 <= n_cuotas)%Z -> 0 <= tna ->
  exists df met,
    generar_cuadro_marcha irr monto_prestamo n_cuotas tna
      gastos_admin_fijos iva = Retorna (df, met)
    /\ (pd_sum (map (celda ColInteres) df)
        =x= Fin (inject_Z n_cuotas
                 * cuota_exacta monto_prestamo n_cuotas (tna / 12)
                 - monto_prestamo))%X.
Proof.
  intros Hn Ht. rewrite generar_forma by exact Hn.
  eexists; eexists; split; [reflexivity|].
  pose proof (tasa_mensual_no_negativa tna Ht) as Ht'.
  destruct (columnas_finitas monto_prestamo n_cuotas (tna / 12)
              gastos_admin_fijos iva Hn Ht') as [Hfi _].
  destruct (sumas_cuadro monto_prestamo n_cuotas (tna / 12)
              gastos_admin_fijos iva Hn Ht')
    as (qi & qt & Hqi & _ & Ei & _).
  unfold pd_sum, cuadro_de.
  change (map (celda ColInteres)) with (map interes).
  rewrite sin_nan_finitos by exact Hfi.
  rewrite Hqi. exact Ei.
Qed.

Lemma generar_promedio_teorico
  (monto_prestamo : Q) (n_cuotas : Z) (tna gastos_admin_fijos iva : Q) :
  (1 <= n_cuotas)%Z -> 0 <= tna ->
  exists df met,
    generar_cuadro_marcha irr monto_prestamo n_cuotas tna
      gastos_admin_fijos iva = Retorna (df, met)
    /\ (cuota_total_promedio met
        =x= Fin (promedio_teorico monto_prestamo n_cuotas (tna / 12)
                   gastos_admin_fijos iva))%X.
Proof.
  intros Hn Ht. rewrite generar_forma by exact Hn.
  eexists; eexists; split; [reflexivity|].
  pose proof (tasa_mensual_no_negativa tna Ht) as Ht'.
  destruct (columnas_finitas monto_prestamo n_cuotas (tna / 12)
              gastos_admin_fijos iva Hn Ht') as [_ Hft].
  destruct (sumas_cuadro monto_prestamo n_cuotas (tna / 12)
              gastos_admin_fijos iva Hn Ht')
    as (qi & qt & _ & Hqt & Ei & Et).
  cbn [cuota_total_promedio]. unfold pd_mean, cuadro_de.
  rewrite sin_nan_finitos by exact Hft.
  assert (Hlen : length
                   (map cuota_total
                      (filas_de n_cuotas (tna / 12)
                         (Fin (cuota_exacta monto_prestamo n_cuotas
                                 (tna / 12)))
                         gastos_admin_fijos iva (Fin monto_prestamo)
                         (range 1 (n_cuotas + 1))))
                 = Z.to_nat n_cuotas).
  { rewrite length_map, filas_de_length, range_length. lia. }
  destruct (map cuota_total _) as [|x r] eqn:E.
  { simpl in Hlen. lia. }
  rewrite Hqt, Hlen, Z2Nat.id by lia.
  pose proof (inject_Z_no_cero n_cuotas Hn) as HN.
  cbn [xdiv].
  destruct (Qeq_bool (inject_Z n_cuotas) 0) eqn:E0.
  { apply Qeq_bool_iff in E0. contradiction. }
  rewrite xeq_Fin, Et, Ei. unfold promedio_teorico. field. exact HN.
Qed.

(** X6. For a rate of zero or above, the mean total payment that the
    generator reports is [(1 + iva) * (cuota + gastos) - iva * monto / n]. *)
Theorem promedio_en_forma_cerrada
  (monto_prestamo : Q) (n_cuotas : Z) (tna gastos_admin_fijos iva : Q) :
  (1 <= n_cuotas)%Z -> 0 <= tna ->
  exists df met,
    generar_cuadro_marcha irr monto_prestamo n_cuotas tna
      gastos_admin_fijos iva = Retorna (df, met)
    /\ (cuota_total_promedio met
        =x= Fin ((1 + iva)
                 * (cuota_exacta monto_prestamo n_cuotas (tna / 12)
                    + gastos_admin_fijos)
                 - iva * monto_prestamo / inject_Z n_cuotas))%X.
Proof.
  intros Hn Ht.
  exact (generar_promedio_teorico monto_prestamo n_cuotas tna
           gastos_admin_fijos iva Hn Ht).
Qed.

(** X9. Whenever the generator returns, the annual cost rate it reports is a
    finite percentage above -100. *)
Theorem cft_mayor_que_menos_cien
  (monto_prestamo : Q) (n_cuotas : Z) (tna gastos_admin_fijos iva : Q)
  (df : DataFrame) (met : metricas) :
  generar_cuadro_marcha irr monto_prestamo n_cuotas tna
    gastos_admin_fijos iva = Retorna (df, met) ->
  exists q, costo_financiero_total_pct met = Fin q /\ - (100) < q.
Proof.
  intros Hg.
  destruct (Z_le_gt_dec 1 n_cuotas) as [Hn|Hn].
  - rewrite generar_forma in Hg by exact Hn. cbv zeta in Hg.
    injection Hg as _ <-. cbn [costo_financiero_total_pct].
    unfold calcular_cft_anual.
    destruct (irr _) as [r| | |];
      try (exists (0 * 100); split; reflexivity).
    destruct (Qlt_bool (-1) r) eqn:E;
      [|exists (0 * 100); split; reflexivity].
    apply Qlt_bool_iff in E. eexists. split; [reflexivity|].
    assert (Hp : 0 < (1 + r) ^ 12).
    { apply Qpower_0_lt. apply Qlt_minus_iff in E.
      setoid_replace (1 + r) with (r + - -1) by ring. exact E. }
    apply Qlt_minus_iff.
    setoid_replace (((1 + r) ^ 12 - 1) * 100 + - - (100))
      with ((1 + r) ^ 12 * 100) by ring.
    apply Qmult_lt_0_compat; [exact Hp | reflexivity].
  - rewrite generar_sin_periodos in Hg by lia. discriminate.
Qed.

(** X10. With one period and a rate of zero or above, the schedule is a single
    row that amortizes the whole principal, carries one month of
    interest on it, and whose installment is the two together. *)
Theorem una_sola_cuota
  (monto_prestamo tna gastos_admin_fijos iva : Q) :
  0 <= tna ->
  exists f met,
    generar_cuadro_marcha irr monto_prestamo 1 tna gastos_admin_fijos iva
    = Retorna ([f], met)
    /\ saldo_inicial f = Fin monto_prestamo
    /\ amortizacion f = Fin monto_prestamo
    /\ interes f = Fin (monto_prestamo * (tna / 12))
    /\ (cuota_pura f =x= Fin (monto_prestamo + monto_prestamo * (tna / 12)))%X
    /\ (saldo_final f =x= Fin 0)%X.
Proof.
  intros Ht. rewrite generar_forma by lia. unfold cuadro_de.
  change (1 + 1)%Z with 2%Z.
  rewrite (range_cons 1 2) by lia. rewrite (range_vacio (1 + 1) 2) by lia.
  cbn [filas_de]. eexists; eexists. split; [reflexivity|].
  cbn [fila_de saldo_inicial amortizacion interes cuota_pura saldo_final
       xmul Z.eqb Pos.eqb xsub].
  repeat split.
  - pose proof (tasa_mensual_no_negativa tna Ht) as Ht'.
    rewrite xeq_Fin.
    rewrite <- (teorico_ultima monto_prestamo 1 (tna / 12) ltac:(lia) Ht').
    change (1 - 1)%Z with 0%Z.
    rewrite (teorico_inicio monto_prestamo 1 (tna / 12) ltac:(lia)). ring.
  - rewrite xeq_Fin. ring.
Qed.

End Extras_totales.

(** * Further properties of the search *)

Section Extras_busqueda.

Local Open Scope Q_scope.

Variable irr : list xnum -> irr_resultado.
Variables (monto_prestamo tna gastos_admin_fijos iva_porcentaje : Q).

Local Notation optimizar_ :=
  (optimizar_prestamo irr monto_prestamo tna gastos_admin_fijos
     iva_porcentaje).
Local Notation generar_ := (fun n =>
  generar_cuadro_marcha irr monto_prestamo n tna gastos_admin_fijos
    iva_porcentaje).
Local Notation candidatos_ :=
  (candidatos irr monto_prestamo tna gastos_admin_fijos iva_porcentaje).
Local Notation candidato_ :=
  (candidato irr monto_prestamo tna gastos_admin_fijos iva_porcentaje).
Local Notation es_candidato_ :=
  (es_candidato irr monto_prestamo tna gastos_admin_fijos iva_porcentaje).

(** X11. A range that starts at zero or below makes the search raise the
    [KeyError] of the generator, on its first count. *)
Theorem optimizar_propaga_keyerror (cuota_maxima_pagar : Q) (lo hi : Z) :
  (lo <= 0)%Z -> (lo <= hi)%Z ->
  optimizar_prestamo irr monto_prestamo tna gastos_admin_fijos
    iva_porcentaje cuota_maxima_pagar (lo, hi)
  = Lanza (KeyError ColInteres).
Proof.
  intros Hlo Hhi. unfold optimizar_prestamo. cbn [fst snd].
  rewrite range_cons by lia. cbn [para_cada]. unfold evaluar at 1.
  rewrite generar_sin_periodos by exact Hlo. reflexivity.
Qed.

Lemma xle_bool_presupuesto (x : xnum) (c c' : Q) :
  c <= c' -> xle_bool x (Fin c) = true -> xle_bool x (Fin c') = true.
Proof.
  intros Hc. destruct x; cbn [xle_bool]; try easy.
  intros H. apply Qle_bool_iff in H. apply Qle_bool_iff.
  eapply Qle_trans; eassumption.
Qed.

Lemma es_candidato_presupuesto (c c' : Q) (lo hi : Z) (o : opcion) :
  c <= c' -> es_candidato_ c lo hi o -> es_candidato_ c' lo hi o.
Proof.
  intros Hc (Hr & df & met & Hg & Hle & Hcft & Htot).
  split; [exact Hr|]. exists df, met.
  repeat split; try assumption.
  eapply xle_bool_presupuesto; eassumption.
Qed.

Lemma candidatos_no_vacio (c : Q) (lo hi : Z) (o : opcion) :
  es_candidato_ c lo hi o -> candidatos_ c (range lo (hi + 1)) <> [].
Proof.
  intros Ho E. apply es_candidato_candidato in Ho. destruct Ho as [Hr Hc].
  assert (Hin : In o (candidatos_ c (range lo (hi + 1)))).
  { apply candidatos_In. split; [apply range_In; lia | exact Hc]. }
  rewrite E in Hin. contradiction.
Qed.

(** What a returned plan is, from the equation of the search alone. *)
Lemma optimizar_Some (c : Q) (lo hi : Z) (m : mejor) (l : list opcion) :
  (1 <= lo)%Z -> (lo <= hi)%Z ->
  optimizar_ c (lo, hi) = Retorna (Some (m, l)) ->
  exists o,
    m = Elegida o /\ l = candidatos_ c (range lo (hi + 1))
    /\ es_candidato_ c lo hi o
    /\ forall o', es_candidato_ c lo hi o' ->
         xle_bool (o_cft o) (o_cft o') = true.
Proof.
  intros Hlo Hhi Hopt.
  destruct (candidatos_ c (range lo (hi + 1))) as [|x r] eqn:E.
  - destruct (optimizar_forma irr monto_prestamo tna gastos_admin_fijos
                iva_porcentaje c lo hi Hlo ltac:(lia)) as (m' & _ & Hopt').
    rewrite Hopt', E in Hopt. discriminate.
  - destruct (optimizar_con_candidatos irr monto_prestamo tna
                gastos_admin_fijos iva_porcentaje c lo hi Hlo Hhi)
      as (o & Ho & Hcand & Hmin).
    { rewrite E. discriminate. }
    rewrite Ho in Hopt. injection Hopt as <- <-.
    exists o. split; [reflexivity|]. split; [now rewrite E|].
    split; [exact Hcand|].
    intros o' Ho'. now apply Hmin.
Qed.

(** X12. A larger budget keeps every valid plan and cannot raise the cost of
    the best one. *)
Theorem presupuesto_mayor_no_empeora (c c' : Q) (lo hi : Z)
  (m : mejor) (l : list opcion) :
  (1 <= lo)%Z -> (lo <= hi)%Z -> c <= c' ->
  optimizar_prestamo irr monto_prestamo tna gastos_admin_fijos
    iva_porcentaje c (lo, hi) = Retorna (Some (m, l)) ->
  exists o o' l',
    m = Elegida o
    /\ optimizar_prestamo irr monto_prestamo tna gastos_admin_fijos
         iva_porcentaje c' (lo, hi) = Retorna (Some (Elegida o', l'))
    /\ xle_bool (o_cft o') (o_cft o) = true
    /\ forall x, In x l -> In x l'.
Proof.
  intros Hlo Hhi Hc Hopt.
  destruct (optimizar_Some c lo hi m l Hlo Hhi Hopt)
    as (o & -> & -> & Hcand & _).
  pose proof (es_candidato_presupuesto c c' lo hi o Hc Hcand) as Hcand'.
  destruct (optimizar_con_candidatos irr monto_prestamo tna
              gastos_admin_fijos iva_porcentaje c' lo hi Hlo Hhi)
    as (o' & Ho' & _ & Hmin).
  { eapply candidatos_no_vacio. exact Hcand'. }
  exists o, o'. eexists. split; [reflexivity|]. split; [exact Ho'|].
  split; [now apply Hmin|].
  intros x Hx. apply candidatos_In in Hx. destruct Hx as [Hr Hx].
  apply range_In in Hr.
  assert (Hxc : es_candidato_ c lo hi x).
  { apply es_candidato_candidato. split; [lia | exact Hx]. }
  apply (es_candidato_presupuesto c c' lo hi x Hc) in Hxc.
  apply es_candidato_candidato in Hxc. destruct Hxc as [_ Hxc].
  apply candidatos_In. split; [apply range_In; lia | exact Hxc].
Qed.

Hypothesis Htna : 0 <= tna.

Local Notation asequible_ :=
  (asequible_teorico monto_prestamo tna gastos_admin_fijos iva_porcentaje).

Lemma candidato_por_promedio (c : Q) (n : Z) :
  (1 <= n)%Z ->
  match candidato_ c n with
  | Some o => o_n_cuotas o = n /\ asequible_ c n = true
  | None => asequible_ c n = false
  end.
Proof.
  intros Hn.
  destruct (generar_promedio_teorico irr monto_prestamo n tna
              gastos_admin_fijos iva_porcentaje Hn Htna)
    as (df & met & Hg & Hp).
  unfold candidato. rewrite Hg. unfold asequible_teorico.
  destruct (cuota_total_promedio met) as [q| | |]; cbn [xeq] in Hp;
    try contradiction.
  cbn [xle_bool].
  assert (Hb : Qle_bool q c
               = Qle_bool (promedio_teorico monto_prestamo n (tna / 12)
                             gastos_admin_fijos iva_porcentaje) c).
  { set (pr := promedio_teorico monto_prestamo n (tna / 12)
                 gastos_admin_fijos iva_porcentaje) in *.
    destruct (Qle_bool q c) eqn:E1; destruct (Qle_bool pr c) eqn:E2;
      try reflexivity; exfalso.
    - apply Qle_bool_iff in E1. rewrite Hp in E1.
      apply Qle_bool_iff in E1. congruence.
    - apply Qle_bool_iff in E2. rewrite <- Hp in E2.
      apply Qle_bool_iff in E2. congruence. }
  rewrite <- Hb. destruct (Qle_bool q c); [split; reflexivity | reflexivity].
Qed.

Lemma candidatos_por_promedio (c : Q) (periodos : list Z) :
  Forall (fun n => (1 <= n)%Z) periodos ->
  map o_n_cuotas (candidatos_ c periodos) = filter (asequible_ c) periodos.
Proof.
  induction 1 as [|n r Hn _ IH]; [reflexivity|].
  unfold candidatos. cbn [flat_map filter].
  fold (candidatos_ c r).
  pose proof (candidato_por_promedio c n Hn) as H.
  destruct (candidato_ c n) as [o|].
  - destruct H as [Ho Ha]. rewrite Ha. cbn [app map]. now rewrite IH, Ho.
  - rewrite H. cbn [app]. exact IH.
Qed.

(** X13. For a rate of zero or above and a range that starts at 1 or above,
    the counts of the valid plans that the search lists are exactly the
    counts of the range whose closed-form mean payment is within the
    budget, in order; the search finds no plan exactly when there is no
    such count. *)
Theorem validos_por_promedio (c : Q) (lo hi : Z) :
  (1 <= lo)%Z -> (lo <= hi)%Z ->
  exists r,
    optimizar_prestamo irr monto_prestamo tna gastos_admin_fijos
      iva_porcentaje c (lo, hi) = Retorna r
    /\ map o_n_cuotas (lista_validos r)
       = filter
           (asequible_teorico monto_prestamo tna gastos_admin_fijos
              iva_porcentaje c)
           (range lo (hi + 1))
    /\ (r = None <->
        filter
          (asequible_teorico monto_prestamo tna gastos_admin_fijos
             iva_porcentaje c)
          (range lo (hi + 1)) = []).
Proof.
  intros Hlo Hhi.
  destruct (optimizar_forma irr monto_prestamo tna gastos_admin_fijos
              iva_porcentaje c lo hi Hlo ltac:(lia)) as (m & _ & Hopt).
  assert (Hall : Forall (fun n => (1 <= n)%Z) (range lo (hi + 1))).
  { apply Forall_forall. intros n Hin. apply range_In in Hin. lia. }
  pose proof (candidatos_por_promedio c _ Hall) as Hmap.
  eexists. split; [exact Hopt|].
  destruct (candidatos_ c (range lo (hi + 1))) as [|x r] eqn:E;
    cbn [lista_validos].
  - rewrite <- Hmap. cbn [map]. repeat split.
  - rewrite <- Hmap. split; [reflexivity|].
    split; intros H; discriminate.
Qed.

End Extras_busqueda.

(** * The form *)

Section Extras_formulario.

Local Open Scope Q_scope.

Variable irr : list xnum -> irr_resultado.

(** X15. On the values that the widgets let through, the handler of the
    button raises nothing: it shows the message for no plan or a best
    plan.  The plan shown has its count in the chosen range and a mean
    payment within the budget, and the schedule shown with it is the one
    the generator returns for that count, with that many rows and the
    two figures of the plan. *)
Theorem formulario_no_falla (monto_prestamo : Z) (tna_pct : Q)
  (gastos_admin_fijos : Z) (iva_pct : Q) (cuota_maxima_pagar : Z)
  (rango_cuotas : Z * Z) :
  entrada_formulario monto_prestamo tna_pct gastos_admin_fijos iva_pct
    cuota_maxima_pagar rango_cuotas ->
  (exists p,
     calcular_y_optimizar irr monto_prestamo tna_pct gastos_admin_fijos
       iva_pct cuota_maxima_pagar rango_cuotas = inl p)
  /\ forall n ct cft cuadro validos,
       calcular_y_optimizar irr monto_prestamo tna_pct gastos_admin_fijos
         iva_pct cuota_maxima_pagar rango_cuotas
       = inl (ResultadoOptimo n ct cft cuadro validos) ->
       (fst rango_cuotas <= n <= snd rango_cuotas)%Z
       /\ xle_bool ct (Fin (inject_Z cuota_maxima_pagar)) = true
       /\ length cuadro = Z.to_nat n
       /\ exists met,
            generar_cuadro_marcha irr (inject_Z monto_prestamo) n
              (tna_pct / 100) (inject_Z gastos_admin_fijos) (iva_pct / 100)
            = Retorna (cuadro, met)
            /\ ct = cuota_total_promedio met
            /\ cft = costo_financiero_total_pct met.
Proof.
  destruct rango_cuotas as [lo hi].
  intros (_ & _ & _ & _ & _ & Hlo & Hhi & _). cbn [fst snd] in Hlo, Hhi.
  unfold calcular_y_optimizar. cbv zeta.
  destruct (candidatos irr (inject_Z monto_prestamo) (tna_pct / 100)
              (inject_Z gastos_admin_fijos) (iva_pct / 100)
              (inject_Z cuota_maxima_pagar) (range lo (hi + 1)))
    as [|x r] eqn:E.
  - destruct (optimizar_forma irr (inject_Z monto_prestamo) (tna_pct / 100)
                (inject_Z gastos_admin_fijos) (iva_pct / 100)
                (inject_Z cuota_maxima_pagar) lo hi Hlo ltac:(lia))
      as (m & _ & Hopt).
    rewrite Hopt, E. split; [now eexists|]. intros; discriminate.
  - destruct (optimizar_con_candidatos irr (inject_Z monto_prestamo)
                (tna_pct / 100) (inject_Z gastos_admin_fijos) (iva_pct / 100)
                (inject_Z cuota_maxima_pagar) lo hi Hlo Hhi)
      as (o & Ho & Hcand & _).
    { rewrite E. discriminate. }
    rewrite Ho.
    destruct Hcand as (Hr & df & met & Hg & Hle & Hcft & Htot).
    rewrite Hg. split; [now eexists|].
    intros n ct cft cuadro validos [= <- <- <- <- _].
    cbn [fst snd]. split; [exact Hr|].
    split; [now rewrite Htot|].
    split.
    + destruct (Z_le_gt_dec 1 (o_n_cuotas o)) as [Hn|Hn]; [|lia].
      rewrite generar_forma in Hg by exact Hn. cbv zeta in Hg.
      injection Hg as <- _. unfold cuadro_de.
      rewrite filas_de_length, range_length. lia.
    + exists met. now repeat split.
Qed.

End Extras_formulario.

(** ** Runs of the further properties *)

Lemma generar_retorna_o_lanza_run :
  generar_cuadro_marcha Biseccion.irr 1000 (-2) (12 # 100) 10 (21 # 100)
  = Lanza (KeyError ColInteres)
  /\ exists df met,
       generar_cuadro_marcha Biseccion.irr 1000 2 (12 # 100) 10 (21 # 100)
       = Retorna (df, met)
       /\ length df = Z.to_nat 2
       /\ m_n_cuotas met = 2.
Proof.
  split.
  - apply (generar_retorna_o_lanza Biseccion.irr 1000 (-2) (12 # 100) 10
             (21 # 100)).
    lia.
  - apply (generar_retorna_o_lanza Biseccion.irr 1000 2 (12 # 100) 10
             (21 # 100)).
    lia.
Defined.

Lemma saldos_en_forma_cerrada_run :
  exists df met,
    generar_cuadro_marcha Biseccion.irr 1000 3 (12 # 100) 10 (21 # 100)
    = Retorna (df, met)
    /\ forall f, In f df ->
         exists s s',
           saldo_inicial f = Fin s /\ saldo_final f = Fin s'
           /\ (s == saldo_teorico 1000 3 ((12 # 100) / 12) (n_cuota f - 1))%Q
           /\ (s' == saldo_teorico 1000 3 ((12 # 100) / 12) (n_cuota f))%Q.
Proof.
  apply (saldos_en_forma_cerrada Biseccion.irr 1000 3 (12 # 100) 10
           (21 # 100)).
  - lia.
  - discriminate.
Defined.

Lemma amortizacion_mas_interes_run :
  exists df met,
    generar_cuadro_marcha Biseccion.irr 1000 3 (12 # 100) 10 (21 # 100)
    = Retorna (df, met)
    /\ forall f, In f df ->
         (xadd (amortizacion f) (interes f) =x= cuota_pura f)%X
         /\ (amortizacion f =x= xsub (cuota_pura f) (interes f))%X.
Proof.
  apply (amortizacion_mas_interes Biseccion.irr 1000 3 (12 # 100) 10
           (21 # 100)).
  - lia.
  - discriminate.
Defined.

Lemma saldos_positivos_y_decrecientes_run :
  exists df met,
    generar_cuadro_marcha Biseccion.irr 1000 3 (12 # 100) 10 (21 # 100)
    = Retorna (df, met)
    /\ forall f, In f df ->
         exists s i a s',
           saldo_inicial f = Fin s /\ interes f = Fin i
           /\ amortizacion f = Fin a /\ saldo_final f = Fin s'
           /\ (0 < s /\ 0 <= i /\ 0 < a /\ 0 <= s' /\ s' < s)%Q.
Proof.
  apply (saldos_positivos_y_decrecientes Biseccion.irr 1000 3 (12 # 100) 10
           (21 # 100)).
  - reflexivity.
  - lia.
  - discriminate.
Defined.

Lemma total_intereses_run :
  exists df met,
    generar_cuadro_marcha Biseccion.irr 1000 3 (12 # 100) 10 (21 # 100)
    = Retorna (df, met)
    /\ (pd_sum (map (celda ColInteres) df)
        =x= Fin (inject_Z 3 * cuota_exacta 1000 3 ((12 # 100) / 12)
                 - 1000))%X.
Proof.
  apply (total_intereses Biseccion.irr 1000 3 (12 # 100) 10 (21 # 100)).
  - lia.
  - discriminate.
Defined.

Lemma promedio_en_forma_cerrada_run :
  exists df met,
    generar_cuadro_marcha Biseccion.irr 1000 3 (12 # 100) 10 (21 # 100)
    = Retorna (df, met)
    /\ (cuota_total_promedio met
        =x= Fin ((1 + (21 # 100))
                 * (cuota_exacta 1000 3 ((12 # 100) / 12) + 10)
                 - (21 # 100) * 1000 / inject_Z 3))%X.
Proof.
  apply (promedio_en_forma_cerrada Biseccion.irr 1000 3 (12 # 100) 10
           (21 # 100)).
  - lia.
  - discriminate.
Defined.

Lemma cft_mayor_que_menos_cien_run :
  exists df met,
    generar_cuadro_marcha Biseccion.irr 1000 2 (12 # 100) 10 (21 # 100)
    = Retorna (df, met)
    /\ exists q,
         costo_financiero_total_pct met = Fin q /\ (- (100) < q)%Q.
Proof.
  eexists; eexists. split.
  - vm_compute. reflexivity.
  - eapply (cft_mayor_que_menos_cien Biseccion.irr 1000 2 (12 # 100) 10
              (21 # 100)).
    vm_compute. reflexivity.
Defined.

Lemma una_sola_cuota_run :
  exists f met,
    generar_cuadro_marcha Biseccion.irr 1000 1 (12 # 100) 10 (21 # 100)
    = Retorna ([f], met)
    /\ saldo_inicial f = Fin 1000
    /\ amortizacion f = Fin 1000
    /\ interes f = Fin (1000 * ((12 # 100) / 12))
    /\ (cuota_pura f =x= Fin (1000 + 1000 * ((12 # 100) / 12)))%X
    /\ (saldo_final f =x= Fin 0)%X.
Proof.
  apply (una_sola_cuota Biseccion.irr 1000 (12 # 100) 10 (21 # 100)).
  discriminate.
Defined.

Lemma optimizar_propaga_keyerror_run :
  optimizar_prestamo Biseccion.irr 1000 (12 # 100) 10 (21 # 100) 600 (0, 3)
  = Lanza (KeyError ColInteres).
Proof.
  apply (optimizar_propaga_keyerror Biseccion.irr 1000 (12 # 100) 10
           (21 # 100) 600 0 3); lia.
Defined.

Lemma presupuesto_mayor_no_empeora_run :
  exists m l,
    optimizar_prestamo Biseccion.irr 1000 (12 # 100) 10 (21 # 100)
      400 (1, 3) = Retorna (Some (m, l))
    /\ exists o o' l',
         m = Elegida o
         /\ optimizar_prestamo Biseccion.irr 1000 (12 # 100) 10 (21 # 100)
              600 (1, 3) = Retorna (Some (Elegida o', l'))
         /\ xle_bool (o_cft o') (o_cft o) = true
         /\ forall x, In x l -> In x l'.
Proof.
  eexists; eexists. split.
  - vm_compute. reflexivity.
  - apply (presupuesto_mayor_no_empeora Biseccion.irr 1000 (12 # 100) 10
             (21 # 100) 400 600 1 3).
    + lia.
    + lia.
    + discriminate.
    + vm_compute. reflexivity.
Defined.

Lemma validos_por_promedio_run :
  exists r,
    optimizar_prestamo Biseccion.irr 1000 (12 # 100) 10 (21 # 100)
      600 (1, 3) = Retorna r
    /\ map o_n_cuotas (lista_validos r)
       = filter (asequible_teorico 1000 (12 # 100) 10 (21 # 100) 600)
           (range 1 (3 + 1))
    /\ (r = None <->
        filter (asequible_teorico 1000 (12 # 100) 10 (21 # 100) 600)
          (range 1 (3 + 1)) = []).
Proof.
  apply (validos_por_promedio Biseccion.irr 1000 (12 # 100) 10 (21 # 100)).
  - discriminate.
  - lia.
  - lia.
Defined.

Lemma formulario_no_falla_run :
  entrada_formulario 1000 12 10 21 1000 (1, 3)%Z
  /\ exists p,
       calcular_y_optimizar Biseccion.irr 1000 12 10 21 1000 (1, 3)%Z
       = inl p.
Proof.
  assert (H : entrada_formulario 1000 12 10 21 1000 (1, 3)%Z).
  { unfold entrada_formulario, Qle. simpl. repeat split; lia. }
  split; [exact H|].
  apply (formulario_no_falla Biseccion.irr 1000 12 10 21 1000 (1, 3)%Z H).
Defined.

(** * The payments along the schedule *)

Section Pagos.

Local Open Scope Q_scope.

Lemma bernoulli (t : Q) (m : nat) :
  0 <= t -> 1 + inject_Z (Z.of_nat m) * t <= (1 + t) ^ Z.of_nat m.
Proof.
  intros Ht. induction m as [|m IH].
  - change (inject_Z (Z.of_nat 0)) with 0.
    change ((1 + t) ^ Z.of_nat 0) with 1. lra.
  - rewrite (potencia_siguiente t Ht (Z.of_nat (S m))).
    replace (Z.of_nat (S m) - 1)%Z with (Z.of_nat m) by lia.
    rewrite Nat2Z.inj_succ. unfold Z.succ. rewrite inject_Z_plus.
    change (inject_Z 1) with 1.
    assert (Ha : 0 <= inject_Z (Z.of_nat m)).
    { change 0 with (inject_Z 0). rewrite <- Zle_Qle. lia. }
    revert IH Ha.
    generalize (inject_Z (Z.of_nat m)) ((1 + t) ^ Z.of_nat m).
    intros a b IH Ha. nra.
Qed.

(** The installment is at most one month of interest on the principal
    plus an even share of the principal. *)
Lemma cuota_acotada (monto : Q) (n : Z) (t : Q) :
  0 <= monto -> (1 <= n)%Z -> 0 <= t ->
  cuota_exacta monto n t <= monto * t + monto / inject_Z n.
Proof.
  intros Hm Hn Ht.
  assert (HN : 0 < inject_Z n).
  { change 0 with (inject_Z 0). rewrite <- Zlt_Qlt. lia. }
  assert (HN0 : ~ inject_Z n == 0) by (intros E; rewrite E in HN; discriminate).
  unfold cuota_exacta. destruct (Qlt_bool 0 t) eqn:E.
  - apply Qlt_bool_iff in E.
    pose proof (potencia_mayor_que_uno n t Hn E) as HT.
    pose proof (bernoulli t (Z.to_nat n) Ht) as HB.
    rewrite Z2Nat.id in HB by lia.
    revert HT HB. generalize ((1 + t) ^ n). intros T HT HB.
    assert (HT1 : ~ T - 1 == 0) by (intros E1; lra).
    assert (Ht0 : ~ t == 0) by (intros E0; lra).
    apply Qle_minus_iff.
    setoid_replace
      (monto * t + monto / inject_Z n + - (- (- monto * T) / ((T - 1) / t)))
      with (monto * (T - 1 - inject_Z n * t)
            * / (inject_Z n * (T - 1)))
      by (field; repeat split; assumption).
    apply Qmult_le_0_compat.
    + apply Qmult_le_0_compat; [exact Hm | lra].
    + apply Qlt_le_weak, Qinv_lt_0_compat. nra.
  - apply Qle_minus_iff.
    setoid_replace (monto * t + monto / inject_Z n + - (monto / inject_Z n))
      with (monto * t) by (field; exact HN0).
    now apply Qmult_le_0_compat.
Qed.

Variable irr : list xnum -> irr_resultado.

(** X8. For a positive principal and non-negative rate and tax, interest and
    total payment do not grow along the schedule: a later row carries at
    most the interest and the total payment of an earlier one. *)
Theorem pagos_no_crecen
  (monto_prestamo : Q) (n_cuotas : Z) (tna gastos_admin_fijos iva : Q) :
  0 < monto_prestamo -> (1 <= n_cuotas)%Z -> 0 <= tna -> 0 <= iva ->
  exists df met,
    generar_cuadro_marcha irr monto_prestamo n_cuotas tna
      gastos_admin_fijos iva = Retorna (df, met)
    /\ forall f g, In f df -> In g df -> (n_cuota f < n_cuota g)%Z ->
         xle_bool (interes g) (interes f) = true
         /\ xle_bool (cuota_total g) (cuota_total f) = true.
Proof.
  intros Hm Hn Ht Hiva. rewrite generar_forma by exact Hn.
  eexists; eexists; split; [reflexivity|].
  intros f g Hf Hg Hlt.
  pose proof (tasa_mensual_no_negativa tna Ht) as Ht'.
  pose proof (cuadro_teorico monto_prestamo n_cuotas (tna / 12)
                gastos_admin_fijos iva Hn Ht') as Hall.
  rewrite Forall_forall in Hall.
  destruct (Hall f Hf)
    as (sf & af & sf' & _ & _ & Esf & _ & Hif & _ & _ & _ & _ & Htf).
  destruct (Hall g Hg)
    as (sg & ag & sg' & _ & _ & Esg & _ & Hig & _ & _ & _ & _ & Htg).
  assert (Hs : sg < sf).
  { rewrite Esf, Esg. apply teorico_decrece; try assumption. lia. }
  rewrite Hif, Hig, Htf, Htg. cbn [xle_bool].
  revert Ht'. generalize (tna / 12). intros t Ht'.
  split; apply Qle_bool_iff.
  - nra.
  - assert (H1 : sg * t <= sf * t) by nra.
    assert (H2 : sg * t * iva <= sf * t * iva) by nra.
    lra.
Qed.

(** X7. For non-negative principal, rate and tax, the mean total payment that
    the generator reports is at most the total payment of the first
    period. *)
Theorem promedio_bajo_primera_cuota
  (monto_prestamo : Q) (n_cuotas : Z) (tna gastos_admin_fijos iva : Q) :
  0 <= monto_prestamo -> (1 <= n_cuotas)%Z -> 0 <= tna -> 0 <= iva ->
  exists f1 resto met,
    generar_cuadro_marcha irr monto_prestamo n_cuotas tna
      gastos_admin_fijos iva = Retorna (f1 :: resto, met)
    /\ n_cuota f1 = 1%Z
    /\ xle_bool (cuota_total_promedio met) (cuota_total f1) = true.
Proof.
  intros Hm Hn Ht Hiva.
  destruct (generar_promedio_teorico irr monto_prestamo n_cuotas tna
              gastos_admin_fijos iva Hn Ht) as (df & met & Hg & Hp).
  pose proof Hg as Hg'.
  rewrite generar_forma in Hg' by exact Hn. cbv zeta in Hg'.
  unfold cuadro_de in Hg'. rewrite range_cons in Hg' by lia.
  cbn [filas_de] in Hg'. injection Hg' as Hdf _.
  rewrite Hg, <- Hdf.
  eexists; eexists; eexists. split; [reflexivity|].
  split; [reflexivity|].
  cbn [fila_de cuota_total xmul xadd].
  destruct (cuota_total_promedio met) as [q| | |]; cbn [xeq] in Hp;
    try contradiction.
  cbn [xle_bool]. apply Qle_bool_iff. rewrite Hp.
  unfold promedio_teorico.
  pose proof (tasa_mensual_no_negativa tna Ht) as Ht'.
  pose proof (cuota_acotada monto_prestamo n_cuotas (tna / 12) Hm Hn Ht')
    as Hc.
  revert Hc Ht'.
  generalize (cuota_exacta monto_prestamo n_cuotas (tna / 12)) (tna / 12).
  intros c t Hc Ht'.
  assert (Hd : iva * monto_prestamo / inject_Z n_cuotas
               == iva * (monto_prestamo / inject_Z n_cuotas))
    by (unfold Qdiv; ring).
  rewrite Hd. revert Hc. generalize (monto_prestamo / inject_Z n_cuotas).
  intros d Hc. nra.
Qed.

End Pagos.

Lemma pagos_no_crecen_run :
  exists df met,
    generar_cuadro_marcha Biseccion.irr 1000 3 (12 # 100) 10 (21 # 100)
    = Retorna (df, met)
    /\ forall f g, In f df -> In g df -> n_cuota f < n_cuota g ->
         xle_bool (interes g) (interes f) = true
         /\ xle_bool (cuota_total g) (cuota_total f) = true.
Proof.
  apply (pagos_no_crecen Biseccion.irr 1000 3 (12 # 100) 10 (21 # 100)).
  - reflexivity.
  - lia.
  - discriminate.
  - discriminate.
Defined.

Lemma promedio_bajo_primera_cuota_run :
  exists f1 resto met,
    generar_cuadro_marcha Biseccion.irr 1000 3 (12 # 100) 10 (21 # 100)
    = Retorna (f1 :: resto, met)
    /\ n_cuota f1 = 1
    /\ xle_bool (cuota_total_promedio met) (cuota_total f1) = true.
Proof.
  apply (promedio_bajo_primera_cuota Biseccion.irr 1000 3 (12 # 100) 10
           (21 # 100)).
  - discriminate.
  - lia.
  - discriminate.
  - discriminate.
Defined.

(** * Searches side by side *)

Section Composicion.

Local Open Scope Q_scope.

Lemma range_app (lo k hi : Z) :
  (lo <= k)%Z -> (k <= hi)%Z -> range lo hi = range lo k ++ range k hi.
Proof.
  intros Hlo. revert hi. apply (range_ind k).
  - rewrite (range_vacio k k) by lia. now rewrite app_nil_r.
  - intros h Hh IH. rewrite (range_snoc lo h) by lia.
    rewrite (range_snoc k h) by lia. rewrite IH. now rewrite app_assoc.
Qed.

Lemma elegir_ordenado (m : mejor) (o : opcion) :
  costo_ordenado m -> (exists q, o_cft o = Fin q) ->
  costo_ordenado (elegir m o).
Proof.
  intros Hm [q Hq]. unfold elegir.
  destruct (xlt_bool _ _); [|exact Hm].
  unfold costo_ordenado. cbn [mejor_cft]. now rewrite Hq.
Qed.

Lemma fold_elegir_ordenado (l : list opcion) :
  Forall (fun o => exists q, o_cft o = Fin q) l ->
  forall m, costo_ordenado m -> costo_ordenado (fold_left elegir l m).
Proof.
  induction 1 as [|x r Hx _ IH]; intros m Hm; [exact Hm|].
  cbn [fold_left]. apply IH. now apply elegir_ordenado.
Qed.

(** Folding from a running best gives that best or the best of the list
    alone, whichever costs less, the running best on equal cost. *)
Lemma fold_elegir_desde (l : list opcion) :
  Forall (fun o => exists q, o_cft o = Fin q) l ->
  forall m, costo_ordenado m ->
    fold_left elegir l m =
    if xle_bool (mejor_cft m) (mejor_cft (fold_left elegir l Centinela))
    then m else fold_left elegir l Centinela.
Proof.
  induction 1 as [|x r Hx Hr IH]; intros m Hm.
  - cbn [fold_left mejor_cft]. unfold costo_ordenado in Hm.
    destruct m as [|o]; [reflexivity|]. cbn [mejor_cft] in *.
    destruct (o_cft o); try contradiction; reflexivity.
  - cbn [fold_left].
    assert (HC : costo_ordenado Centinela) by exact I.
    pose proof (elegir_ordenado m x Hm Hx) as Hmx.
    pose proof (elegir_ordenado Centinela x HC Hx) as Hcx.
    rewrite (IH _ Hmx), (IH _ Hcx). clear IH Hmx Hcx.
    pose proof (fold_elegir_ordenado r Hr Centinela HC) as Hd.
    remember (fold_left elegir r Centinela) as mejor_r eqn:Er. clear Er.
    destruct Hx as [b Hb]. unfold elegir. cbn [mejor_cft]. rewrite Hb.
    unfold costo_ordenado in Hm, Hd.
    destruct (mejor_cft m) as [a| | |] eqn:Ea; try contradiction;
      destruct (mejor_cft mejor_r) as [d| | |] eqn:Ed;
      try contradiction;
      repeat first
        [ progress cbn [mejor_cft xle_bool xlt_bool]
        | rewrite Hb | rewrite Ea | rewrite Ed
        | match goal with
          | |- context [Qle_bool ?u ?v] => destruct (Qle_bool u v) eqn:?
          | |- context [Qlt_bool ?u ?v] => destruct (Qlt_bool u v) eqn:?
          end ];
      try reflexivity; exfalso; a_desigualdades; lra.
Qed.

End Composicion.

Section Tramos.

Local Open Scope Q_scope.

Variable irr : list xnum -> irr_resultado.
Variables (monto_prestamo tna gastos_admin_fijos iva_porcentaje : Q).
Variable cuota_maxima_pagar : Q.

Local Notation optimizar_ :=
  (optimizar_prestamo irr monto_prestamo tna gastos_admin_fijos
     iva_porcentaje cuota_maxima_pagar).
Local Notation evaluar_ :=
  (evaluar irr monto_prestamo tna gastos_admin_fijos iva_porcentaje
     cuota_maxima_pagar).
Local Notation candidatos_ :=
  (candidatos irr monto_prestamo tna gastos_admin_fijos iva_porcentaje
     cuota_maxima_pagar).
Local Notation candidato_ :=
  (candidato irr monto_prestamo tna gastos_admin_fijos iva_porcentaje
     cuota_maxima_pagar).

(** The loop of the search as a fold over the candidates. *)
Lemma para_cada_evaluar (periodos : list Z) :
  Forall (fun n => (1 <= n)%Z) periodos ->
  forall b,
    para_cada evaluar_ periodos b =
    Retorna {| mejor_opcion :=
                 fold_left elegir (candidatos_ periodos) (mejor_opcion b);
               resultados_validos :=
                 resultados_validos b ++ candidatos_ periodos |}.
Proof.
  induction 1 as [|n r Hn _ IH]; intros b.
  - cbn [para_cada candidatos flat_map fold_left]. rewrite app_nil_r.
    now destruct b.
  - cbn [para_cada]. rewrite evaluar_forma by exact Hn. cbn [ligar].
    rewrite IH. unfold candidatos. cbn [flat_map].
    destruct (candidato_ n) as [o|];
      cbn [app fold_left mejor_opcion resultados_validos].
    + now rewrite <- app_assoc.
    + reflexivity.
Qed.

Lemma optimizar_funcional (lo hi : Z) :
  (1 <= lo)%Z ->
  optimizar_ (lo, hi) = Retorna (resultado_de (candidatos_ (range lo (hi + 1)))).
Proof.
  intros Hlo. unfold optimizar_prestamo. cbn [fst snd].
  rewrite para_cada_evaluar.
  - cbn [ligar resultados_validos mejor_opcion busqueda_inicial app].
    unfold resultado_de. now destruct (candidatos_ (range lo (hi + 1))).
  - apply Forall_forall. intros n Hin. apply range_In in Hin. lia.
Qed.

Lemma candidatos_costo_finito (periodos : list Z) :
  Forall (fun o => exists q, o_cft o = Fin q) (candidatos_ periodos).
Proof.
  apply Forall_forall. intros o Ho. apply candidatos_In in Ho.
  destruct Ho as [_ Ho].
  now destruct (candidato_Some _ _ _ _ _ _ _ _ Ho) as (_ & _ & Hq & _).
Qed.

Lemma resultado_de_app (l1 l2 : list opcion) :
  Forall (fun o => exists q, o_cft o = Fin q) l1 ->
  Forall (fun o => exists q, o_cft o = Fin q) l2 ->
  resultado_de (l1 ++ l2) = combinar (resultado_de l1) (resultado_de l2).
Proof.
  intros H1 H2.
  destruct l1 as [|x1 r1]; [now destruct l2|].
  destruct l2 as [|x2 r2].
  - rewrite app_nil_r. reflexivity.
  - unfold resultado_de, combinar. cbn [app]. f_equal. f_equal.
    change (x1 :: r1 ++ x2 :: r2) with ((x1 :: r1) ++ (x2 :: r2)).
    rewrite fold_left_app.
    apply fold_elegir_desde; [exact H2|].
    apply fold_elegir_ordenado; [exact H1 | exact I].
Qed.

(** X14. A range cut in two: the search over the whole range returns the
    results of the searches over the two parts put together, the lists
    one after the other and the cheaper of the two best plans, the one of
    the lower part on equal cost. *)
Theorem optimizar_por_tramos (lo k hi : Z) :
  (1 <= lo)%Z -> (lo <= k)%Z -> (k <= hi)%Z ->
  exists r1 r2,
    optimizar_prestamo irr monto_prestamo tna gastos_admin_fijos
      iva_porcentaje cuota_maxima_pagar (lo, k) = Retorna r1
    /\ optimizar_prestamo irr monto_prestamo tna gastos_admin_fijos
         iva_porcentaje cuota_maxima_pagar ((k + 1)%Z, hi) = Retorna r2
    /\ optimizar_prestamo irr monto_prestamo tna gastos_admin_fijos
         iva_porcentaje cuota_maxima_pagar (lo, hi)
       = Retorna (combinar r1 r2).
Proof.
  intros Hlo Hk Hhi.
  rewrite !optimizar_funcional by lia.
  eexists; eexists. split; [reflexivity|]. split; [reflexivity|].
  rewrite (range_app lo (k + 1) (hi + 1)) by lia.
  rewrite candidatos_app. f_equal.
  apply resultado_de_app; apply candidatos_costo_finito.
Qed.

End Tramos.

Lemma optimizar_por_tramos_run :
  exists r1 r2,
    optimizar_prestamo Biseccion.irr 1000 (12 # 100) 10 (21 # 100) 600 (1, 2)
    = Retorna r1
    /\ optimizar_prestamo Biseccion.irr 1000 (12 # 100) 10 (21 # 100) 600
         (2 + 1, 3) = Retorna r2
    /\ optimizar_prestamo Biseccion.irr 1000 (12 # 100) 10 (21 # 100) 600
         (1, 3) = Retorna (combinar r1 r2).
Proof.
  apply (optimizar_por_tramos Biseccion.irr 1000 (12 # 100) 10 (21 # 100)
           600 1 2 3); lia.
Defined.
